(** * sphinx_asdf.md2rst: the markdown to reST converter

    A shallow embedding of [src/sphinx_asdf/md2rst.py] and the properties of
    its renderer and of its two math rules.

    Conventions of the embedding.
    - A Python [str] is a [string]: one [ascii] per character.  [len] is
      [String.length], concatenation and the [%s] and f-string templates
      are [+:+].
    - A Python [dict] with string keys is a [gmap string _]; a dict that is
      iterated in insertion order ([attributes]) is an association list.
    - A call that may raise returns a [result]: [Return v] or [Raise e].
      A computation with a loop takes fuel and has an [outcome]: a result,
      or [OutOfFuel].
    - [textwrap] (standard library) and [mistune] (third party) are not part
      of the repository: what the program takes from them are the members
      of the classes [Dedent], [Fill], [Mistune] and [MistuneDriver], so
      every theorem holds for any implementation of them.
    - The loops of mistune that call the methods of the program, the one of
      [InlineLexer.output] and the ones of [Markdown] over the tokens, are
      written out ([InlineLexer.output], [Driver]); the rules and the output
      methods of mistune stay members of [Mistune]. *)

From Stdlib Require Import Ascii ZArith Lia.
From Stdlib Require String.
From stdpp Require Import base option list gmap strings.

Local Open Scope Z_scope.
Local Open Scope nat_scope.

(** ** Characters that cannot be written inside a literal *)

Definition LF : ascii := "010"%char.
Definition nl : string := String LF "".
Definition dquote : string := String "034"%char "".

(** ** Python's [str] built-ins *)

Module Py.

Definition len (s : string) : nat := String.length s.

(** [s.startswith(p)] *)
Fixpoint startswith (s p : string) {struct p} : bool :=
  match p, s with
  | EmptyString, _ => true
  | String a p', String b s' => if decide (a = b) then startswith s' p' else false
  | String _ _, EmptyString => false
  end.

(** [s[n:]] for [0 <= n] *)
Fixpoint drop (n : nat) (s : string) : string :=
  match n, s with
  | 0, _ => s
  | S n', String _ s' => drop n' s'
  | S _, EmptyString => EmptyString
  end.

(** [s[:n]] for [0 <= n] *)
Fixpoint take (n : nat) (s : string) : string :=
  match n, s with
  | 0, _ => EmptyString
  | S n', String c s' => String c (take n' s')
  | S _, EmptyString => EmptyString
  end.

(** [s * n] *)
Fixpoint mul (s : string) (n : nat) : string :=
  match n with
  | 0 => EmptyString
  | S n' => s +:+ mul s n'
  end.

(** [s[i]] for a non-negative position *)
Fixpoint nth (s : string) (i : nat) : option string :=
  match s, i with
  | EmptyString, _ => None
  | String c _, 0 => Some (String c "")
  | String _ s', S i' => nth s' i'
  end.

(** Whether an integer fits [Py_ssize_t], as an index must ([sys.maxsize]
    of a 64-bit build). *)
Definition fits_index (i : Z) : bool :=
  ((- 2 ^ 63 <=? i) && (i <? 2 ^ 63))%Z.

(** The message of the [IndexError] that [s[i]] raises for a string. *)
Definition index_error (i : Z) : string :=
  if fits_index i then "string index out of range"
  else "cannot fit 'int' into an index-sized integer".

(** [s[i]]: a negative index counts from the end; [None] stands for the
    [IndexError] of a position outside the string. *)
Definition getitem (s : string) (i : Z) : option string :=
  let n := Z.of_nat (len s) in
  if (0 <=? i)%Z then nth s (Z.to_nat i)
  else if (- n <=? i)%Z then nth s (Z.to_nat (n + i))
  else None.

(** [sep.join(parts)] *)
Fixpoint join (sep : string) (parts : list string) : string :=
  match parts with
  | [] => ""
  | [p] => p
  | p :: ps => p +:+ sep +:+ join sep ps
  end.

(** [s.split(sep)] for a separator of one character: never empty. *)
Fixpoint split (sep : ascii) (s : string) : list string :=
  match s with
  | EmptyString => [""]
  | String c s' =>
      if decide (c = sep) then "" :: split sep s'
      else match split sep s' with
           | h :: t => String c h :: t
           | [] => [String c ""]
           end
  end.

(** [s.replace(old, new)] for a non-empty [old]: occurrences are replaced
    from left to right and do not overlap.  [skip] counts the characters
    of the occurrence just replaced that are still to be passed over. *)
Fixpoint replace_from (skip : nat) (old new s : string) : string :=
  match s with
  | EmptyString => ""
  | String c s' =>
      match skip with
      | S k => replace_from k old new s'
      | 0 =>
          if startswith s old
          then new +:+ replace_from (len old - 1) old new s'
          else String c (replace_from 0 old new s')
      end
  end.

Definition replace (s old new : string) : string := replace_from 0 old new s.

(** [s.rstrip(chars)] for [chars] of one character *)
Fixpoint rstrip (c : ascii) (s : string) : string :=
  match s with
  | EmptyString => ""
  | String a s' =>
      match rstrip c s' with
      | EmptyString => if decide (a = c) then "" else String a ""
      | r => String a r
      end
  end.

(** [s.find(sub)]: the least index at which [sub] occurs, [None] for -1. *)
Fixpoint find (s sub : string) : option nat :=
  if startswith s sub then Some 0
  else match s with
       | EmptyString => None
       | String _ s' => S <$> find s' sub
       end.

(** [s.rfind(sub)]: the greatest index at which [sub] occurs. *)
Fixpoint rfind (s sub : string) : option nat :=
  match s with
  | EmptyString => if startswith s sub then Some 0 else None
  | String _ s' =>
      match rfind s' sub with
      | Some i => Some (S i)
      | None => if startswith s sub then Some 0 else None
      end
  end.

(** Truth value of a [str] *)
Definition nonempty (s : string) : bool :=
  match s with EmptyString => false | String _ _ => true end.

(** [c in s] for one character [c] *)
Fixpoint contains (c : ascii) (s : string) : bool :=
  match s with
  | EmptyString => false
  | String a s' => if decide (a = c) then true else contains c s'
  end.

End Py.

(** ** Values, exceptions and results *)

(** The values a keyword argument or a token field holds here. *)
Inductive value :=
| VNone
| VBool (b : bool)
| VInt (z : Z)
| VStr (s : string).

#[global] Instance value_eq_dec : EqDecision value.
Proof. solve_decision. Defined.

(** Python's truth value, as tested by [if x:] *)
Definition truthy (v : value) : bool :=
  match v with
  | VNone => false
  | VBool b => b
  | VInt z => negb (z =? 0)%Z
  | VStr s => Py.nonempty s
  end.

(** [d.get(key)]: [None] when the key is absent *)
Definition dict_get (d : gmap string value) (key : string) : value :=
  default VNone (d !! key).

(** An exception: its class and its [args]. *)
Inductive exception :=
| NotImplementedError (args : list string)
| IndexError (args : list string)
| TypeError (args : list string)
| AttributeError (args : list string)
| KeyError (args : list string)
| RuntimeError (args : list string).

Definition exception_args (e : exception) : list string :=
  match e with
  | NotImplementedError a | IndexError a | TypeError a
  | AttributeError a | KeyError a | RuntimeError a => a
  end.

Inductive result (A : Type) :=
| Return (a : A)
| Raise (e : exception).
Arguments Return {A} a.
Arguments Raise {A} e.

#[global] Instance result_ret : MRet result := fun A a => Return a.
#[global] Instance result_bind : MBind result := fun A B f m =>
  match m with
  | Return a => f a
  | Raise e => Raise e
  end.

Definition returned {A} (m : result A) : option A :=
  match m with Return a => Some a | Raise _ => None end.

(** A computation with a loop has an [outcome]: it finished, returning or
    raising, or the fuel it was given ran out before it did. *)
Inductive outcome (A : Type) :=
| Finished (r : result A)
| OutOfFuel.
Arguments Finished {A} r.
Arguments OutOfFuel {A}.

#[global] Instance outcome_bind : MBind outcome := fun A B f m =>
  match m with
  | Finished (Return a) => f a
  | Finished (Raise e) => Finished (Raise e)
  | OutOfFuel => OutOfFuel
  end.

(** ** The functions taken from [textwrap] *)

(** [textwrap.dedent(text)] *)
Class Dedent := dedent : string -> string.

(** [textwrap.fill(text, initial_indent=i, subsequent_indent=j)] *)
Class Fill := fill : string -> string -> string -> string.

(** ** class RstRenderer *)

Module RstRenderer.

(** The instance attributes set by the constructor. *)
Record t := { options : gmap string value; levels : value }.

Definition default_levels : string := "*=-^" +:+ dquote +:+ "+:~".

Definition __init__ (kwargs : gmap string value) : t :=
  {| options := kwargs;
     levels := default (VStr default_levels) (kwargs !! "levels") |}.

Section Methods.
Context `{Dedent} `{Fill}.
Variable self : t.

Definition _indented (content : string) : string :=
  let content := dedent content in
  Py.join nl ((fun line => "   " +:+ line) <$> Py.split LF content).

Definition _directive (name content : string) (args : list string)
    (attributes : list (string * string)) : string :=
  let out := ".. " +:+ name +:+ ":: " +:+ Py.join ", " args +:+ nl in
  let out := foldl (fun out kv => out +:+ "    :" +:+ kv.1 +:+ ": " +:+ kv.2 +:+ nl)
                   out attributes in
  let out := out +:+ nl in
  let out := out +:+ _indented content in
  let out := out +:+ nl +:+ nl in
  out.

Definition placeholder : string := "".

Definition block_code (code : string) (lang : option string) : string :=
  let code := Py.rstrip LF code in
  let langs :=
    match lang with
    | Some l => if Py.nonempty l then [l] else ["none"]
    | None => ["none"]
    end in
  _directive "code-block" code langs [].

Definition block_quote (text : string) : string := _indented text.

Definition block_html (html : string) : string :=
  if truthy (dict_get (options self) "skip_html") then ""
  else _directive "raw" html ["html"] [].

(** [self.levels[level]] on a value that is not a sequence *)
Definition not_subscriptable (v : value) : exception :=
  TypeError [match v with
             | VNone => "'NoneType' object is not subscriptable"
             | VBool _ => "'bool' object is not subscriptable"
             | VInt _ => "'int' object is not subscriptable"
             | VStr _ => ""
             end].

Definition header (text : string) (level : Z) (raw : option string)
    : result string :=
  match levels self with
  | VStr ls =>
      match Py.getitem ls level with
      | Some c => Return (text +:+ nl +:+ Py.mul c (Py.len text) +:+ nl +:+ nl)
      | None => Raise (IndexError [Py.index_error level])
      end
  | v => Raise (not_subscriptable v)
  end.

Definition hrule : string := nl +:+ nl +:+ "--------" +:+ nl +:+ nl.

Definition list (body : string) (ordered : bool) : string :=
  let body :=
    if ordered then Py.replace (nl +:+ body) (nl +:+ "- ") (nl +:+ "#.")
    else body in
  body.

Definition list_item (text : string) : string :=
  fill text "-  " "   " +:+ nl +:+ nl.

Definition paragraph (text : string) : string := text +:+ nl +:+ nl.

Definition table (header body : string) : result string :=
  Raise (NotImplementedError []).

Definition table_row (content : string) : result string :=
  Raise (NotImplementedError []).

Definition table_cell (content : string) (flags : gmap string value)
    : result string :=
  Raise (NotImplementedError []).

Definition double_emphasis (text : string) : string := "**" +:+ text +:+ "**".

Definition emphasis (text : string) : string := "*" +:+ text +:+ "*".

Definition codespan (text : string) : string := ":code:`" +:+ text +:+ "`".

Definition linebreak : string := "".

Definition strikethrough (text : string) : string := text.

Definition text (text : string) : string := text.

Definition autolink (link : string) (is_email : bool) : string :=
  let text := link in
  let link := if is_email then "mailto:" +:+ link else link in
  if Py.startswith link "ref:"
  then ":ref:`" +:+ text +:+ " <" +:+ Py.drop 4 link +:+ ">`"
  else "`" +:+ text +:+ " <" +:+ link +:+ ">`__".

Definition link (link : string) (title : option string) (text : string)
    : string :=
  let link := if Py.startswith link "javascript:" then "" else link in
  if Py.startswith link "ref:"
  then ":ref:`" +:+ text +:+ " <" +:+ Py.drop 4 link +:+ ">`"
  else "`" +:+ text +:+ " <" +:+ link +:+ ">`__".

Definition image (src : string) (title : option string) (text : string)
    : string :=
  let src := if Py.startswith src "javascript:" then "" else src in
  let options : Datatypes.list (string * string) := [] in
  let options := if Py.nonempty text then options ++ [("alt", text)] else options in
  _directive "image" "" [src] options.

Definition tag (html : string) : string :=
  if truthy (dict_get (options self) "skip_html") then ""
  else ":raw:`" +:+ html +:+ "`".

Definition newline : string := "".

Definition footnote_ref (key : string) (index : Z) : result string :=
  Raise (NotImplementedError []).

Definition footnote_item (key text : string) : result string :=
  Raise (NotImplementedError []).

Definition footnotes (text : string) : result string :=
  Raise (NotImplementedError []).

Definition math (text : string) : string := ":math:`" +:+ text +:+ "`".

Definition block_math (text : string) : string := _directive "math" text [] [].

End Methods.

End RstRenderer.

(** ** The part of [re] the two lexers use

    Patterns are matched the way [re] matches them: alternatives,
    repetitions and optional items are tried in priority order and the first
    complete match wins.  Every repetition in the patterns of this program
    ranges over a single character, so [Lazy] and [Greedy] take a character
    class. *)

Module re.

Inductive regex :=
| Eps
| Bos                                     (* ^ *)
| Eos                                     (* $ without MULTILINE *)
| Chr (c : ascii)                         (* a literal character *)
| Cls (p : ascii -> bool)                 (* a class [...], or . *)
| Seq (r1 r2 : regex)
| Alt (r1 r2 : regex)                     (* r1|r2 *)
| Opt (r : regex)                         (* r? *)
| Lazy (min : nat) (p : ascii -> bool)    (* x*? and x+? *)
| Greedy (min : nat) (p : ascii -> bool)  (* x*, x+ and x{n,} *)
| Group (r : regex)                       (* (r), the group numbered 1 *)
| Look (r : regex).                       (* (?=r) *)

(** A literal string *)
Fixpoint lit (s : string) : regex :=
  match s with
  | EmptyString => Eps
  | String c s' => Seq (Chr c) (lit s')
  end.

(** [.] without and with DOTALL *)
Definition dot (c : ascii) : bool := negb (bool_decide (c = LF)).
Definition dot_all (c : ascii) : bool := true.

(** [\s] and [\S]: the characters below 256 that [str.isspace] accepts *)
Definition space (c : ascii) : bool :=
  bool_decide (c ∈ [" "; "009"; "010"; "011"; "012"; "013";
                    "028"; "029"; "030"; "031"; "133"; "160"]%char).
Definition non_space (c : ascii) : bool := negb (space c).

(** A match object: [group(0)] and [group(1)]. *)
Record Match := { group0 : string; group1 : option string }.

(** The state of a match in progress: the text still to be read and what
    group 1 holds. *)
Definition state : Type := string * option string.

Section Matcher.
Variable subject : string.

Fixpoint lazy_many (p : ascii -> bool) (min : nat) (s : string)
    (k : string -> option state) {struct s} : option state :=
  match min with
  | 0 =>
      match k s with
      | Some st => Some st
      | None =>
          match s with
          | String c s' => if p c then lazy_many p 0 s' k else None
          | EmptyString => None
          end
      end
  | S min' =>
      match s with
      | String c s' => if p c then lazy_many p min' s' k else None
      | EmptyString => None
      end
  end.

Fixpoint greedy_many (p : ascii -> bool) (min : nat) (s : string)
    (k : string -> option state) {struct s} : option state :=
  let stop := match min with 0 => k s | S _ => None end in
  match s with
  | String c s' =>
      if p c then
        match greedy_many p (pred min) s' k with
        | Some st => Some st
        | None => stop
        end
      else stop
  | EmptyString => stop
  end.

Fixpoint run (r : regex) (s : string) (g : option string)
    (k : string -> option string -> option state) : option state :=
  match r with
  | Eps => k s g
  | Bos => if decide (Py.len s = Py.len subject) then k s g else None
  | Eos => if decide (s = "" ∨ s = nl) then k s g else None
  | Chr c =>
      match s with
      | String a s' => if decide (a = c) then k s' g else None
      | EmptyString => None
      end
  | Cls p =>
      match s with
      | String a s' => if p a then k s' g else None
      | EmptyString => None
      end
  | Seq r1 r2 => run r1 s g (fun s' g' => run r2 s' g' k)
  | Alt r1 r2 =>
      match run r1 s g k with
      | Some st => Some st
      | None => run r2 s g k
      end
  | Opt r' =>
      match run r' s g k with
      | Some st => Some st
      | None => k s g
      end
  | Lazy min p => lazy_many p min s (fun s' => k s' g)
  | Greedy min p => greedy_many p min s (fun s' => k s' g)
  | Group r' =>
      run r' s g (fun s' _ => k s' (Some (Py.take (Py.len s - Py.len s') s)))
  | Look r' =>
      match run r' s g (fun s' g' => Some (s', g')) with
      | Some (_, g') => k s g'
      | None => None
      end
  end.

End Matcher.

(** A pattern without a capturing group *)
Fixpoint groupless (r : regex) : bool :=
  match r with
  | Group _ => false
  | Seq r1 r2 | Alt r1 r2 => groupless r1 && groupless r2
  | Opt r' | Look r' => groupless r'
  | _ => true
  end.

(** [re.compile(r).match(text)] *)
Definition match_ (r : regex) (text : string) : option Match :=
  match run text r text None (fun s g => Some (s, g)) with
  | Some (rest, g) =>
      Some {| group0 := Py.take (Py.len text - Py.len rest) text; group1 := g |}
  | None => None
  end.

End re.

(** A compiled pattern, seen through its [match] method. *)
Abbreviation pattern := (string -> option re.Match) (only parsing).

(** A token of the block lexer: a dict. *)
Abbreviation token := (gmap string value) (only parsing).

(** ** The parts of [mistune] the program builds on *)

Class Mistune := {
  (** the attributes of [mistune.BlockGrammar] *)
  BlockGrammar : gmap string pattern;
  (** [mistune.BlockLexer.default_rules] *)
  BlockLexer_default_rules : list string;
  (** [mistune.BlockLexer.parse_<key>(m)], on the token list *)
  BlockLexer_parse : string -> re.Match -> list token -> list token;
  (** the attributes of [mistune.InlineGrammar] *)
  InlineGrammar : gmap string pattern;
  (** [mistune.InlineLexer.default_rules] *)
  InlineLexer_default_rules : list string;
  (** [mistune.InlineLexer.output_<key>(m)], other than text and math *)
  InlineLexer_output :
    RstRenderer.t -> string -> re.Match -> result (option string);
}.

(** ** class BlockLexer(mistune.BlockLexer) *)

Module BlockLexer.

Record t := {
  rules : gmap string pattern;
  default_rules : list string;
  tokens : list token;
}.

(** The pattern ^\$\$(.*?)\$\$ with [re.DOTALL] *)
Definition block_math : re.regex :=
  re.Seq re.Bos
    (re.Seq (re.lit "$$")
       (re.Seq (re.Group (re.Lazy 0 re.dot_all)) (re.lit "$$"))).

Section Methods.
Context `{Mistune}.

Definition enable_math (self : t) : t :=
  {| rules := <["block_math" := re.match_ block_math]> (rules self);
     default_rules := "block_math" :: BlockLexer_default_rules;
     tokens := tokens self |}.

(** [mistune.BlockLexer.__init__], then [enable_math] *)
Definition __init__ : t :=
  enable_math
    {| rules := BlockGrammar;
       default_rules := BlockLexer_default_rules;
       tokens := [] |}.

(** [m.group(1)] as a value *)
Definition group1_value (m : re.Match) : value :=
  match re.group1 m with Some s => VStr s | None => VNone end.

Definition parse_block_math (self : t) (m : re.Match) : t :=
  {| rules := rules self;
     default_rules := default_rules self;
     tokens := tokens self ++
       [ <["type" := VStr "block_math"]> (<["text" := group1_value m]> ∅) ] |}.

(** [getattr(self, 'parse_%s' % key)(m)] *)
Definition parse_ (self : t) (key : string) (m : re.Match) : t :=
  if decide (key = "block_math") then parse_block_math self m
  else {| rules := rules self;
          default_rules := default_rules self;
          tokens := BlockLexer_parse key m (tokens self) |}.

(** The inner function [manipulate] of [mistune.BlockLexer.parse]: the
    rules are tried in the order of [keys]; the first that matches appends
    its token.  [Return None] stands for the result [False]. *)
Fixpoint manipulate (self : t) (keys : list string) (text : string)
    : result (option (t * string * re.Match)) :=
  match keys with
  | [] => Return None
  | key :: keys' =>
      match rules self !! key with
      | None => Raise (AttributeError [key])
      | Some rule =>
          match rule text with
          | None => manipulate self keys' text
          | Some m => Return (Some (parse_ self key m, key, m))
          end
      end
  end.

End Methods.

End BlockLexer.

(** ** class InlineLexer(mistune.InlineLexer) *)

Module InlineLexer.

Record t := {
  renderer : RstRenderer.t;
  rules : gmap string pattern;
  default_rules : list string;
}.

(** The class [\\<!\[_*`~$] *)
Definition stop (c : ascii) : bool :=
  bool_decide (c ∈ ["\"; "<"; "!"; "["; "_"; "*"; "`"; "~"; "$"]%char).

(** The class [\s\S] *)
Definition any (c : ascii) : bool := re.space c || re.non_space c.

Definition blank (c : ascii) : bool := bool_decide (c = " "%char).

(** The pattern ^[\s\S]+?(?=[\\<!\[_*`~$]|https?://| {2,}\n|$) *)
Definition text : re.regex :=
  re.Seq re.Bos
    (re.Seq (re.Lazy 1 any)
       (re.Look
          (re.Alt (re.Cls stop)
             (re.Alt (re.Seq (re.lit "http")
                        (re.Seq (re.Opt (re.Chr "s")) (re.lit "://")))
                (re.Alt (re.Seq (re.Greedy 2 blank) (re.Chr LF))
                   re.Eos))))).

(** The pattern ^\$(.+?)\$ *)
Definition math : re.regex :=
  re.Seq re.Bos
    (re.Seq (re.Chr "$")
       (re.Seq (re.Group (re.Lazy 1 re.dot)) (re.Chr "$"))).

Section Methods.
Context `{Mistune}.

Definition enable_math (self : t) : t :=
  {| renderer := renderer self;
     rules := <["math" := re.match_ math]>
                (<["text" := re.match_ text]> (rules self));
     default_rules := "math" :: InlineLexer_default_rules |}.

(** [mistune.InlineLexer.__init__], then [enable_math]; the class
    attribute [default_rules] already starts with the math rule. *)
Definition __init__ (renderer : RstRenderer.t) : t :=
  enable_math
    {| renderer := renderer;
       rules := InlineGrammar;
       default_rules := "math" :: InlineLexer_default_rules |}.

(** [m.group(1)] under a [%s] template *)
Definition group1_str (m : re.Match) : string := default "None" (re.group1 m).

Definition output_math (self : t) (m : re.Match) : string :=
  RstRenderer.math (group1_str m).

(** [mistune.InlineLexer.output_text] *)
Definition output_text (self : t) (m : re.Match) : string :=
  RstRenderer.text (re.group0 m).

(** [getattr(self, 'output_%s' % key)(m)] *)
Definition output_ (self : t) (key : string) (m : re.Match)
    : result (option string) :=
  if decide (key = "math") then Return (Some (output_math self m))
  else if decide (key = "text") then Return (Some (output_text self m))
  else InlineLexer_output (renderer self) key m.

(** The inner function [manipulate] of [mistune.InlineLexer.output]: the
    first rule of [keys] that matches and whose output is not [None] gives
    the match and the rendered fragment; [Return None] stands for the
    result [False]. *)
Fixpoint manipulate (self : t) (keys : list string) (text : string)
    : result (option (re.Match * string)) :=
  match keys with
  | [] => Return None
  | key :: keys' =>
      match rules self !! key with
      | None => Raise (AttributeError [key])
      | Some rule =>
          match rule text with
          | None => manipulate self keys' text
          | Some m =>
              out ← output_ self key m;
              match out with
              | Some out => Return (Some (m, out))
              | None => manipulate self keys' text
              end
          end
      end
  end.

(** One turn of the loop of [mistune.InlineLexer.output]: the fragment to
    append and the text left. *)
Definition step (self : t) (text : string) : result (string * string) :=
  ret ← manipulate self (default_rules self) text;
  match ret with
  | Some (m, out) => Return (out, Py.drop (Py.len (re.group0 m)) text)
  | None => Raise (RuntimeError ["Infinite loop at: " +:+ text])
  end.

(** [rules.remove('footnote')]: the first one in the list is removed. *)
Fixpoint remove (key : string) (keys : list string) : list string :=
  match keys with
  | [] => []
  | k :: keys' => if decide (k = key) then keys' else k :: remove key keys'
  end.

(** The loop of [mistune.InlineLexer.output], with the rules [keys] on the
    text without the newlines that end it: [while text:], the fragment of
    each turn is appended and the matched text is dropped. *)
Fixpoint output_from (self : t) (keys : list string) (fuel : nat)
    (output text : string) : outcome string :=
  match text with
  | EmptyString => Finished (Return output)
  | String _ _ =>
      match fuel with
      | 0 => OutOfFuel
      | S fuel' =>
          match manipulate self keys text with
          | Return (Some (m, out)) =>
              output_from self keys fuel' (output +:+ out)
                (Py.drop (Py.len (re.group0 m)) text)
          | Return None =>
              Finished (Raise (RuntimeError ["Infinite loop at: " +:+ text]))
          | Raise e => Finished (Raise e)
          end
      end
  end.

(** [mistune.InlineLexer.output(text)], which the lexer is called through:
    inside a footnote the footnote rule is left out. *)
Definition output (self : t) (in_footnote : bool) (fuel : nat) (text : string)
    : outcome string :=
  output_from self
    (if in_footnote then remove "footnote" (default_rules self)
     else default_rules self)
    fuel RstRenderer.placeholder (Py.rstrip LF text).

End Methods.

End InlineLexer.

(** ** class Markdown(mistune.Markdown) and the entry point *)

Module Markdown.

Definition output_block_math `{Dedent} (token : token) : result string :=
  match token !! "text" with
  | Some (VStr text) => Return (RstRenderer.block_math text)
  | Some _ => Raise (TypeError ["expected str"])
  | None => Raise (KeyError ["text"])
  end.

(** The loop of [mistune.Markdown.output]:
    [out = placeholder(); while pop(): out += tok()]. *)
Fixpoint output_from (tok : token -> result string) (out : string)
    (tokens : list token) : result string :=
  match tokens with
  | [] => Return out
  | t :: tokens' =>
      frag ← tok t;
      output_from tok (out +:+ frag) tokens'
  end.

Definition output (tok : token -> result string) (tokens : list token)
    : result string :=
  output_from tok RstRenderer.placeholder tokens.

End Markdown.

(** [mistune.Markdown(block, inline, renderer).render(content)] *)
Class MistuneDriver :=
  Markdown_render :
    BlockLexer.t -> InlineLexer.t -> RstRenderer.t -> string -> result string.

Definition md2rst `{Mistune} `{MistuneDriver} (content : string)
    : result string :=
  let renderer := RstRenderer.__init__ ∅ in
  Markdown_render BlockLexer.__init__ (InlineLexer.__init__ renderer)
    renderer content.

(** ** The driver, [mistune.Markdown], on the tokens of the block lexer

    The driver pops the tokens one at a time and gives each to the output
    method of its type; the methods for block quotes, lists, list items and
    footnotes pop on, up to the token that ends them.  [inline] stands for
    the call of the inline lexer on a text, given its [_in_footnote], and
    [inline_html] for its call with the rules [inline_html_rules]. *)

Module Driver.

(** A token as the block lexer appends it: a dict whose type tells which
    other keys it has. *)
Inductive entry :=
| Newline
| Hrule
| Heading (level : Z) (text : string)
| Code (lang : option string) (text : string)
| Table (header : list string) (align : list value)
    (cells : list (list string))
| BlockQuoteStart
| BlockQuoteEnd
| ListStart (ordered : bool)
| ListEnd
| ListItemStart
| LooseItemStart
| ListItemEnd
| FootnoteStart (key : string)
| FootnoteEnd (key : string)
| OpenHtml (tag : string) (extra : option string) (text : string)
| CloseHtml (text : string)
| Paragraph (text : string)
| Text (text : string)
| BlockMath (text : string).

(** [token['type']] *)
Definition type_of (e : entry) : string :=
  match e with
  | Newline => "newline"
  | Hrule => "hrule"
  | Heading _ _ => "heading"
  | Code _ _ => "code"
  | Table _ _ _ => "table"
  | BlockQuoteStart => "block_quote_start"
  | BlockQuoteEnd => "block_quote_end"
  | ListStart _ => "list_start"
  | ListEnd => "list_end"
  | ListItemStart => "list_item_start"
  | LooseItemStart => "loose_item_start"
  | ListItemEnd => "list_item_end"
  | FootnoteStart _ => "footnote_start"
  | FootnoteEnd _ => "footnote_end"
  | OpenHtml _ _ _ => "open_html"
  | CloseHtml _ => "close_html"
  | Paragraph _ => "paragraph"
  | Text _ => "text"
  | BlockMath _ => "block_math"
  end.

(** The token of [BlockLexer.parse_block_math], as a dict *)
Definition block_math_token (text : string) : token :=
  <["type" := VStr "block_math"]> (<["text" := VStr text]> ∅).

(** [self.tokens], the next token first, [self.footnotes] and
    [self.inline._in_footnote] *)
Record state := {
  tokens : list entry;
  footnotes : list (string * string);
  in_footnote : bool;
}.

(** [None['type']], of [pop()] or [peek()] on an empty stack *)
Definition none_type : exception :=
  TypeError ["'NoneType' object is not subscriptable"].

(** [_pre_tags] *)
Definition pre_tags : list string := ["pre"; "script"; "style"].

(** [getattr(self, 'output_%s' % t)] for a type without an output method *)
Definition no_method (t : string) : exception :=
  AttributeError ["'Markdown' object has no attribute 'output_" +:+ t +:+ "'"].

Section Methods.
Context `{Dedent} `{Fill}.
Variable renderer : RstRenderer.t.
Variable inline : bool -> string -> outcome string.
Variable inline_html : bool -> string -> outcome string.

(** The keyword arguments of [table_cell] *)
Definition flags (header : bool) (align : list value) (i : nat)
    : gmap string value :=
  <["header" := VBool header]> (<["align" := default VNone (align !! i)]> ∅).

(** [cell += self.renderer.table_cell(self.inline(value), **flags)] for
    the values of one row *)
Fixpoint row_cells (in_fn header : bool) (align : list value) (i : nat)
    (cell : string) (values : list string) : outcome string :=
  match values with
  | [] => Finished (Return cell)
  | value :: values' =>
      text ← inline in_fn value;
      c ← Finished (RstRenderer.table_cell text (flags header align i));
      row_cells in_fn header align (S i) (cell +:+ c) values'
  end.

(** [body += self.renderer.table_row(cell)] for the rows *)
Fixpoint body_rows (in_fn : bool) (align : list value) (body : string)
    (rows : list (list string)) : outcome string :=
  match rows with
  | [] => Finished (Return body)
  | row :: rows' =>
      cell ← row_cells in_fn false align 0 RstRenderer.placeholder row;
      r ← Finished (RstRenderer.table_row cell);
      body_rows in_fn align (body +:+ r) rows'
  end.

Definition output_table (in_fn : bool) (header : list string)
    (align : list value) (cells : list (list string)) : outcome string :=
  cell ← row_cells in_fn true align 0 RstRenderer.placeholder header;
  head ← Finished (RstRenderer.table_row cell);
  body ← body_rows in_fn align RstRenderer.placeholder cells;
  Finished (RstRenderer.table (RstRenderer.placeholder +:+ head) body).

Definition output_heading (in_fn : bool) (level : Z) (text : string)
    : outcome string :=
  rendered ← inline in_fn text;
  Finished (RstRenderer.header renderer rendered level (Some text)).

Definition output_code (lang : option string) (text : string) : string :=
  RstRenderer.block_code text lang.

(** [output_open_html]; [_parse_block_html] is the option
    [parse_block_html], which the driver takes from the renderer. *)
Definition output_open_html (in_fn : bool) (tag : string)
    (extra : option string) (text : string) : outcome string :=
  text ←
    (if truthy (dict_get (RstRenderer.options renderer) "parse_block_html")
        && negb (bool_decide (tag ∈ pre_tags))
     then inline_html in_fn text
     else Finished (Return text));
  Finished (Return
    (RstRenderer.block_html renderer
       ("<" +:+ tag +:+ default "" extra +:+ ">" +:+ text
        +:+ "</" +:+ tag +:+ ">"))).

Definition output_close_html (text : string) : string :=
  RstRenderer.block_html renderer text.

Definition output_paragraph (in_fn : bool) (text : string) : outcome string :=
  rendered ← inline in_fn text;
  Finished (Return (RstRenderer.paragraph rendered)).

(** The loop of [tok_text]: the text tokens that follow are popped and
    their texts added, one line each; [peek()] of an empty stack is
    [None]. *)
Fixpoint merge_text (text : string) (rest : list entry)
    : result (string * list entry) :=
  match rest with
  | [] => Raise none_type
  | Text more :: rest' => merge_text (text +:+ nl +:+ more) rest'
  | _ :: _ => Return (text, rest)
  end.

Definition tok_text (text : string) (st : state) : outcome (string * state) :=
  '(text, rest) ← Finished (merge_text text (tokens st));
  out ← inline (in_footnote st) text;
  Finished (Return (out, {| tokens := rest;
                            footnotes := footnotes st;
                            in_footnote := in_footnote st |})).

(** [self.pop()]: the token is taken off the stack. *)
Definition popped (st : state) (rest : list entry) : state :=
  {| tokens := rest;
     footnotes := footnotes st;
     in_footnote := in_footnote st |}.

(** [tok], which calls the output method of the current token [e], and the
    loop [while self.pop()['type'] != end: body += ...] of the methods that
    render up to an end token; [merge] tells the loop of [output_list_item],
    which calls [tok_text] on a text token. *)
Fixpoint tok (fuel : nat) (e : entry) (st : state)
    : outcome (string * state) :=
  match fuel with
  | 0 => OutOfFuel
  | S fuel' =>
      match e with
      | Newline => Finished (Return (RstRenderer.newline, st))
      | Hrule => Finished (Return (RstRenderer.hrule, st))
      | Heading level text =>
          frag ← output_heading (in_footnote st) level text;
          Finished (Return (frag, st))
      | Code lang text => Finished (Return (output_code lang text, st))
      | Table header align cells =>
          frag ← output_table (in_footnote st) header align cells;
          Finished (Return (frag, st))
      | BlockQuoteStart =>
          '(body, st') ←
            until fuel' false "block_quote_end" RstRenderer.placeholder st;
          Finished (Return (RstRenderer.block_quote body, st'))
      | ListStart ordered =>
          '(body, st') ← until fuel' false "list_end" RstRenderer.placeholder st;
          Finished (Return (RstRenderer.list body ordered, st'))
      | ListItemStart =>
          '(body, st') ←
            until fuel' true "list_item_end" RstRenderer.placeholder st;
          Finished (Return (RstRenderer.list_item body, st'))
      | LooseItemStart =>
          '(body, st') ←
            until fuel' false "list_item_end" RstRenderer.placeholder st;
          Finished (Return (RstRenderer.list_item body, st'))
      | FootnoteStart key =>
          '(body, st') ←
            until fuel' false "footnote_end" RstRenderer.placeholder
              {| tokens := tokens st;
                 footnotes := footnotes st;
                 in_footnote := true |};
          Finished (Return
            (RstRenderer.placeholder,
             {| tokens := tokens st';
                footnotes := footnotes st' ++ [(key, body)];
                in_footnote := false |}))
      | OpenHtml tag extra text =>
          frag ← output_open_html (in_footnote st) tag extra text;
          Finished (Return (frag, st))
      | CloseHtml text => Finished (Return (output_close_html text, st))
      | Paragraph text =>
          frag ← output_paragraph (in_footnote st) text;
          Finished (Return (frag, st))
      | Text text =>
          '(frag, st') ← tok_text text st;
          Finished (Return (RstRenderer.paragraph frag, st'))
      | BlockMath text =>
          frag ← Finished (Markdown.output_block_math (block_math_token text));
          Finished (Return (frag, st))
      | BlockQuoteEnd | ListEnd | ListItemEnd | FootnoteEnd _ =>
          Finished (Raise (no_method (type_of e)))
      end
  end
with until (fuel : nat) (merge : bool) (end_ : string) (body : string)
    (st : state) : outcome (string * state) :=
  match fuel with
  | 0 => OutOfFuel
  | S fuel' =>
      match tokens st with
      | [] => Finished (Raise none_type)
      | e :: rest =>
          if decide (type_of e = end_)
          then Finished (Return (body, popped st rest))
          else
            '(frag, st') ←
              match e with
              | Text text =>
                  if merge then tok_text text (popped st rest)
                  else tok fuel' e (popped st rest)
              | _ => tok fuel' e (popped st rest)
              end;
            until fuel' merge end_ (body +:+ frag) st'
      end
  end.

(** The loop of [output]: [while self.pop(): out += self.tok()] *)
Fixpoint output_from (fuel : nat) (out : string) (st : state)
    : outcome (string * state) :=
  match tokens st with
  | [] => Finished (Return (out, st))
  | e :: rest =>
      match fuel with
      | 0 => OutOfFuel
      | S fuel' =>
          '(frag, st') ← tok fuel' e (popped st rest);
          output_from fuel' (out +:+ frag) st'
      end
  end.

(** [keys.get(o['key'])], for a footnote [o]; a key that is not there
    counts like the index 0. *)
Definition index_of (keys : gmap string Z) (note : string * string) : Z :=
  default 0%Z (keys !! note.1).

(** [sorted(footnotes, key=..., reverse=True)]: a later note comes after
    the earlier ones that do not have a smaller index. *)
Fixpoint insert_note (keys : gmap string Z) (note : string * string)
    (sorted : list (string * string)) : list (string * string) :=
  match sorted with
  | [] => [note]
  | n :: rest =>
      if (index_of keys note <=? index_of keys n)%Z
      then n :: insert_note keys note rest
      else note :: n :: rest
  end.

Definition sorted_notes (keys : gmap string Z)
    (notes : list (string * string)) : list (string * string) :=
  foldl (fun sorted note => insert_note keys note sorted) [] notes.

(** [while self.footnotes: body += footnote_item(...)], the notes being
    popped from the end *)
Fixpoint footnote_items (body : string) (notes : list (string * string))
    : result string :=
  match notes with
  | [] => Return body
  | note :: notes' =>
      item ← RstRenderer.footnote_item note.1 note.2;
      footnote_items (body +:+ item) notes'
  end.

(** [parse], on the tokens of the text; [keys] is the [def_footnotes] of
    the block lexer as the inline lexer has left it. *)
Definition parse (fuel : nat) (keys : gmap string Z) (toks : list entry)
    : outcome string :=
  '(out, st) ←
    output_from fuel RstRenderer.placeholder
      {| tokens := toks; footnotes := []; in_footnote := false |};
  match footnotes st with
  | [] => Finished (Return out)
  | _ :: _ =>
      let notes :=
        filter (fun note => index_of keys note ≠ 0%Z) (footnotes st) in
      body ← Finished (footnote_items RstRenderer.placeholder
                         (reverse (sorted_notes keys notes)));
      notes ← Finished (RstRenderer.footnotes body);
      Finished (Return (out +:+ notes))
  end.

End Methods.

(** A token that the renderer has no output for: a table, or the start of
    a footnote. *)
Definition unsupported (e : entry) : bool :=
  match e with
  | Table _ _ _ | FootnoteStart _ => true
  | _ => false
  end.

Definition is_table (e : entry) : bool :=
  match e with
  | Table _ _ _ => true
  | _ => false
  end.

(** What a run that returned has passed over, from one state to another:
    the tokens it popped hold no table, and when no footnote is recorded at
    the end, none was recorded at the start and none of the tokens is the
    start of one. *)
Definition passed (st st' : state) : Prop :=
  ∃ popped,
    tokens st = popped ++ tokens st'
    ∧ Forall (fun e => is_table e = false) popped
    ∧ (footnotes st' = [] ->
       footnotes st = [] ∧ Forall (fun e => unsupported e = false) popped).

End Driver.

(** ** A model of [textwrap.dedent], to run the renderer on examples

    The algorithm of CPython's [textwrap] module: lines of blanks only are
    emptied, the margin is the longest common run of leading blanks of the
    other lines, and it is removed from every line that starts with it. *)

Module textwrap.

Definition is_blank (c : ascii) : bool :=
  bool_decide (c = " "%char ∨ c = "009"%char).

Fixpoint leading (s : string) : string :=
  match s with
  | String c s' => if is_blank c then String c (leading s') else ""
  | EmptyString => ""
  end.

Definition whitespace_only (line : string) : bool :=
  Py.nonempty line && bool_decide (leading line = line).

Fixpoint common_prefix (a b : string) : string :=
  match a, b with
  | String x a', String y b' =>
      if decide (x = y) then String x (common_prefix a' b') else ""
  | _, _ => ""
  end.

Definition narrow (margin : option string) (indent : string) : option string :=
  match margin with
  | None => Some indent
  | Some m =>
      if Py.startswith indent m then Some m
      else if Py.startswith m indent then Some indent
      else Some (common_prefix m indent)
  end.

Definition dedent (text : string) : string :=
  let lines :=
    (fun l => if whitespace_only l then "" else l) <$> Py.split LF text in
  let indents := leading <$> filter (fun l => l ≠ "") lines in
  let margin := foldl narrow None indents in
  let lines :=
    match margin with
    | Some m =>
        if Py.nonempty m
        then (fun l => if Py.startswith l m then Py.drop (Py.len m) l else l)
               <$> lines
        else lines
    | None => lines
    end in
  Py.join nl lines.

End textwrap.

Definition cpython_dedent : Dedent := textwrap.dedent.

(** ** Definitions that follow the specification's words *)

Module Spec.

(** An ordered list: each line that begins with the item marker has the
    marker rewritten, and nothing else changes. *)
Definition rewrite_marker (line : string) : string :=
  if Py.startswith line "- " then "#." +:+ Py.drop 2 line else line.

Definition rewrite_markers (body : string) : string :=
  Py.join nl (rewrite_marker <$> Py.split LF body).

(** The block math rule read as a greedy match, which extends to the last
    closing delimiter: the pattern of the rule with a greedy star in place
    of the lazy one. *)
Definition block_math_greedy : re.regex :=
  re.Seq re.Bos
    (re.Seq (re.lit "$$")
       (re.Seq (re.Group (re.Greedy 0 re.dot_all)) (re.lit "$$"))).

(** The closing delimiter of inline math in the text after the opening
    one: the first dollar sign that follows at least one character, none of
    the characters before it being a newline.  [closing_from] gives its
    position from a given point of the line on. *)
Fixpoint closing_from (s : string) : option nat :=
  match s with
  | EmptyString => None
  | String c s' =>
      if decide (c = "$"%char) then Some 0
      else if decide (c = LF) then None
      else S <$> closing_from s'
  end.

Definition closing_dollar (rest : string) : option nat :=
  match rest with
  | EmptyString => None
  | String c s' => if decide (c = LF) then None else S <$> closing_from s'
  end.





End Spec.

(** ** A sample of mistune, to run the lexers on examples

    Two block rules and two inline rules of mistune, with the way their
    tokens and fragments are built reduced to the matched text. *)

Module Sample.

(** The pattern ^\n+ *)
Definition newline : re.regex :=
  re.Seq re.Bos (re.Greedy 1 (fun c => bool_decide (c = LF))).

(** The pattern ^[^\n]+ *)
Definition block_text : re.regex := re.Seq re.Bos (re.Greedy 1 re.dot).

(** The class [\\`*{}\[\]()#+\-.!_>~|] *)
Definition escapable (c : ascii) : bool :=
  bool_decide (c ∈ ["\"; "`"; "*"; "{"; "}"; "["; "]"; "("; ")"; "#"; "+";
                    "-"; "."; "!"; "_"; ">"; "~"; "|"]%char).

(** The pattern ^\\([\\`*{}\[\]()#+\-.!_>~|]) *)
Definition escape : re.regex :=
  re.Seq re.Bos (re.Seq (re.Chr "\") (re.Group (re.Cls escapable))).

Definition mistune : Mistune := {|
  BlockGrammar :=
    <["newline" := re.match_ newline]>
      (<["text" := re.match_ block_text]> ∅);
  BlockLexer_default_rules := ["newline"; "text"];
  BlockLexer_parse key m tokens :=
    tokens ++ [ <["type" := VStr key]> (<["text" := VStr (re.group0 m)]> ∅) ];
  InlineGrammar := <["escape" := re.match_ escape]> ∅;
  InlineLexer_default_rules := ["escape"; "text"];
  InlineLexer_output _ _ m := Return (re.group1 m);
|}.

End Sample.

(** * Properties *)

(** ** Strings *)

Section StringFacts.
Implicit Types (s t u : string) (c : ascii).

Lemma app_cons c s t : String c s +:+ t = String c (s +:+ t).
Proof. reflexivity. Qed.


Lemma app_assoc s t u : (s +:+ t) +:+ u = s +:+ t +:+ u.
Proof. induction s as [|c s IH]; [done|]. by rewrite !app_cons, IH. Qed.

Lemma len_app s t : Py.len (s +:+ t) = Py.len s + Py.len t.
Proof.
  induction s as [|c s IH]; [done|].
  rewrite app_cons. unfold Py.len in *. simpl. by rewrite IH.
Qed.

Lemma len_mul s n : Py.len (Py.mul s n) = n * Py.len s.
Proof.
  induction n as [|n IH]; [done|].
  simpl. rewrite len_app, IH. lia.
Qed.

Lemma nth_len s i t : Py.nth s i = Some t -> Py.len t = 1.
Proof.
  revert i. induction s as [|c s IH]; intros [|i] Hn; simplify_eq/=; eauto.
Qed.

Lemma getitem_len s z t : Py.getitem s z = Some t -> Py.len t = 1.
Proof.
  unfold Py.getitem. repeat case_match; try done; apply nth_len.
Qed.

Lemma startswith_app s p : Py.startswith (p +:+ s) p = true.
Proof.
  induction p as [|c p IH]; [by destruct s|].
  rewrite app_cons. simpl. by rewrite decide_True.
Qed.

Lemma startswith_split s p :
  Py.startswith s p = true -> s = p +:+ Py.drop (Py.len p) s.
Proof.
  revert s. induction p as [|c p IH]; intros s Hp; [done|].
  destruct s as [|a s]; [done|]. simpl in Hp.
  case_decide; [subst|done].
  rewrite app_cons. unfold Py.len. simpl. f_equal. by apply IH.
Qed.

Lemma drop_app s t : Py.drop (Py.len s) (s +:+ t) = t.
Proof. induction s as [|c s IH]; [by destruct t|]. by rewrite app_cons. Qed.

Lemma take_app s t : Py.take (Py.len s) (s +:+ t) = s.
Proof.
  induction s as [|c s IH]; [by destruct t|].
  rewrite app_cons. unfold Py.len in *. simpl. by rewrite IH.
Qed.

Lemma take_drop n s : Py.take n s +:+ Py.drop n s = s.
Proof.
  revert s. induction n as [|n IH]; intros [|c s]; try done.
  simpl. by rewrite app_cons, IH.
Qed.

End StringFacts.

(** ** Headers *)

(** C1. A header is rendered as its text, a newline, the glyph
    [levels[level]] repeated [len(text)] times and two newlines: the
    underline is as long as the text.  With the default glyphs every level
    from 1 to 6 has a glyph, and the glyph of level 1 is the equals sign. *)
Theorem header_underline (self : RstRenderer.t) (ls text : string)
    (level : Z) (raw : option string) (c : string) :
  RstRenderer.levels self = VStr ls ->
  Py.getitem ls level = Some c ->
  RstRenderer.header self text level raw
    = Return (text +:+ nl +:+ Py.mul c (Py.len text) +:+ nl +:+ nl)
  ∧ Py.len (Py.mul c (Py.len text)) = Py.len text
  ∧ RstRenderer.header (RstRenderer.__init__ ∅) text 1 raw
    = Return (text +:+ nl +:+ Py.mul "=" (Py.len text) +:+ nl +:+ nl)
  ∧ (∀ l : Z, (1 <= l <= 6)%Z ->
       ∃ g, Py.getitem RstRenderer.default_levels l = Some g).
Proof.
  intros Hls Hc. split_and!.
  - unfold RstRenderer.header. by rewrite Hls, Hc.
  - rewrite len_mul, (getitem_len _ _ _ Hc). lia.
  - reflexivity.
  - intros l Hl.
    assert (l = 1 ∨ l = 2 ∨ l = 3 ∨ l = 4 ∨ l = 5 ∨ l = 6)%Z
      as Hcases by lia.
    destruct_or!; subst l; eexists; reflexivity.
Qed.

Lemma header_underline_witness :
  RstRenderer.header (RstRenderer.__init__ ∅) "Title" 1 None
    = Return ("Title" +:+ nl +:+ "=====" +:+ nl +:+ nl).
Proof.
  exact (proj1 (header_underline (RstRenderer.__init__ ∅)
                  RstRenderer.default_levels "Title" 1 None "="
                  eq_refl eq_refl)).
Defined.

(** A level outside the glyph sequence raises [IndexError]. *)
Lemma header_level_out_of_range (self : RstRenderer.t) ls text level raw :
  RstRenderer.levels self = VStr ls ->
  Py.getitem ls level = None ->
  RstRenderer.header self text level raw
    = Raise (IndexError [Py.index_error level]).
Proof. intros Hls Hc. unfold RstRenderer.header. by rewrite Hls, Hc. Qed.

(** ** Links and images *)

(** C3. A link target and an image source that begin with the script
    scheme are blanked: the link is rendered as an external hyperlink with
    an empty destination and its text, the image as an image directive with
    an empty argument and the alt attribute of a non-empty text.  Both are
    what the empty target is rendered as, so the target occurs nowhere. *)
Theorem javascript_defanged `{Dedent} (target : string)
    (title : option string) (text : string) :
  Py.startswith target "javascript:" = true ->
  RstRenderer.link target title text = "`" +:+ text +:+ " <>`__"
  ∧ RstRenderer.link target title text = RstRenderer.link "" title text
  ∧ RstRenderer.image target title text
    = ".. image:: " +:+ nl
      +:+ (if Py.nonempty text then "    :alt: " +:+ text +:+ nl else "")
      +:+ nl +:+ RstRenderer._indented "" +:+ nl +:+ nl
  ∧ RstRenderer.image target title text = RstRenderer.image "" title text.
Proof.
  intros Hjs. unfold RstRenderer.link, RstRenderer.image. rewrite Hjs.
  split_and!; try reflexivity.
  unfold RstRenderer._directive.
  destruct (Py.nonempty text); simpl; by rewrite ?app_assoc.
Qed.

Lemma javascript_defanged_witness :
  @RstRenderer.image cpython_dedent "javascript:alert(1)" None "x"
    = ".. image:: " +:+ nl +:+ "    :alt: x" +:+ nl +:+ nl
      +:+ "   " +:+ nl +:+ nl
  ∧ RstRenderer.link "javascript:alert(1)" None "x" = "`x <>`__".
Proof.
  pose proof (@javascript_defanged cpython_dedent "javascript:alert(1)"
                None "x" eq_refl) as (Hl & _ & Hi & _).
  split; [exact Hi | exact Hl].
Defined.

(** C4, at the input where the code departs from it: an autolink to a
    script target keeps the target as its destination. *)
Theorem autolink_keeps_javascript :
  RstRenderer.autolink "javascript:alert(1)" false
    = "`javascript:alert(1) <javascript:alert(1)>`__"
  ∧ RstRenderer.link "javascript:alert(1)" None "javascript:alert(1)"
    = "`javascript:alert(1) <>`__".
Proof. split; reflexivity. Qed.

(** The same for every script target: an autolink never looks at the
    script scheme. *)
Lemma autolink_keeps_script_targets (target : string) :
  Py.startswith target "javascript:" = true ->
  RstRenderer.autolink target false
    = "`" +:+ target +:+ " <" +:+ target +:+ ">`__".
Proof.
  intros Hjs. unfold RstRenderer.autolink.
  destruct (Py.startswith target "ref:") eqn:Href; [|done].
  apply startswith_split in Href, Hjs. rewrite Hjs in Href. done.
Qed.

(** Whatever does not begin with the reference scheme is its own
    destination. *)
Lemma autolink_external (target : string) :
  Py.startswith target "ref:" = false ->
  RstRenderer.autolink target false
    = "`" +:+ target +:+ " <" +:+ target +:+ ">`__".
Proof. intros Href. unfold RstRenderer.autolink. by rewrite Href. Qed.

(** C5. A link whose target begins with the reference scheme is rendered
    as a reference role to the target without the scheme, with no trailing
    underscores; any other target that is not a script target is rendered
    as an external hyperlink to it. *)
Theorem link_cross_reference (title : option string) (text : string) :
  (∀ label, RstRenderer.link ("ref:" +:+ label) title text
      = ":ref:`" +:+ text +:+ " <" +:+ label +:+ ">`")
  ∧ (∀ target, Py.startswith target "ref:" = true ->
      RstRenderer.link target title text
      = ":ref:`" +:+ text +:+ " <" +:+ Py.drop 4 target +:+ ">`")
  ∧ (∀ target, Py.startswith target "ref:" = false ->
      Py.startswith target "javascript:" = false ->
      RstRenderer.link target title text
      = "`" +:+ text +:+ " <" +:+ target +:+ ">`__").
Proof.
  split_and!.
  - intros label. unfold RstRenderer.link.
    assert (Py.startswith ("ref:" +:+ label) "javascript:" = false) as ->
      by reflexivity.
    rewrite (startswith_app label "ref:"). reflexivity.
  - intros target Href. unfold RstRenderer.link.
    destruct (Py.startswith target "javascript:") eqn:Hjs.
    + apply startswith_split in Href, Hjs. rewrite Hjs in Href. done.
    + by rewrite Href.
  - intros target Href Hjs. unfold RstRenderer.link. by rewrite Hjs, Href.
Qed.

Lemma link_cross_reference_witness :
  RstRenderer.link "ref:some-label" None "See this"
    = ":ref:`See this <some-label>`"
  ∧ RstRenderer.link "http://example.com" None "Example"
    = "`Example <http://example.com>`__".
Proof.
  pose proof (link_cross_reference None "See this") as (_ & Href & _).
  pose proof (link_cross_reference None "Example") as (_ & _ & Hext).
  split.
  - exact (Href "ref:some-label" eq_refl).
  - exact (Hext "http://example.com" eq_refl eq_refl).
Defined.

(** ** Raw HTML *)

(** C8. With the option [skip_html] false a raw HTML block is rendered as
    a raw directive for html that wraps the block, and an inline tag as a
    raw role; with the option true both are rendered as the empty string. *)
Theorem skip_html_option `{Dedent} (self : RstRenderer.t) (b : bool)
    (html : string) :
  RstRenderer.options self !! "skip_html" = Some (VBool b) ->
  RstRenderer.block_html self html
    = (if b then ""
       else ".. raw:: html" +:+ nl +:+ nl
            +:+ RstRenderer._indented html +:+ nl +:+ nl)
  ∧ RstRenderer.tag self html = (if b then "" else ":raw:`" +:+ html +:+ "`").
Proof.
  intros Hopt.
  unfold RstRenderer.block_html, RstRenderer.tag, dict_get. rewrite Hopt.
  destruct b; [done|]. split; [|done].
  unfold RstRenderer._directive. simpl. by rewrite !app_assoc.
Qed.

Lemma skip_html_option_witness :
  let on := RstRenderer.__init__ (<["skip_html" := VBool true]> ∅) in
  let off := RstRenderer.__init__ (<["skip_html" := VBool false]> ∅) in
  @RstRenderer.block_html cpython_dedent on "<hr>" = ""
  ∧ @RstRenderer.block_html cpython_dedent off "<hr>"
    = ".. raw:: html" +:+ nl +:+ nl +:+ "   <hr>" +:+ nl +:+ nl.
Proof.
  split.
  - exact (proj1 (@skip_html_option cpython_dedent
                    (RstRenderer.__init__ (<["skip_html" := VBool true]> ∅))
                    true "<hr>" eq_refl)).
  - exact (proj1 (@skip_html_option cpython_dedent
                    (RstRenderer.__init__ (<["skip_html" := VBool false]> ∅))
                    false "<hr>" eq_refl)).
Defined.

(** The option left out counts as false. *)
Lemma skip_html_absent `{Dedent} (self : RstRenderer.t) (html : string) :
  RstRenderer.options self !! "skip_html" = None ->
  RstRenderer.block_html self html
    = RstRenderer._directive "raw" html ["html"] []
  ∧ RstRenderer.tag self html = ":raw:`" +:+ html +:+ "`".
Proof.
  intros Hopt.
  unfold RstRenderer.block_html, RstRenderer.tag, dict_get. by rewrite Hopt.
Qed.

(** ** The entry point *)

(** C10. [md2rst] builds its renderer without options, whatever the
    document: the renderer it hands to the driver has no [skip_html], so raw
    HTML is kept, and has the default glyph sequence.  The document is the
    only argument of [md2rst]. *)
Theorem md2rst_default_options `{Mistune} `{MistuneDriver} `{Dedent}
    (content : string) :
  let renderer := RstRenderer.__init__ ∅ in
  md2rst content
    = Markdown_render BlockLexer.__init__ (InlineLexer.__init__ renderer)
        renderer content
  ∧ RstRenderer.options renderer = ∅
  ∧ truthy (dict_get (RstRenderer.options renderer) "skip_html") = false
  ∧ RstRenderer.levels renderer = VStr ("*=-^" +:+ dquote +:+ "+:~")
  ∧ (∀ html, RstRenderer.block_html renderer html
       = RstRenderer._directive "raw" html ["html"] [])
  ∧ (∀ html, RstRenderer.tag renderer html = ":raw:`" +:+ html +:+ "`").
Proof.
  split_and!; reflexivity.
Qed.

(** ** Unsupported constructs *)

(** The exception of a table and the exception of a footnote reference are
    the same value, so the kind of the construct cannot be read off the
    failure. *)
Lemma unsupported_kind_not_reported :
  ¬ ∃ kind_of : exception -> string,
      (∀ e, RstRenderer.table "h" "b" = Raise e -> kind_of e = "table")
      ∧ (∀ e, RstRenderer.footnote_ref "k" 1 = Raise e ->
              kind_of e = "footnote").
Proof.
  intros (kind_of & Htable & Hnote).
  specialize (Htable _ eq_refl). specialize (Hnote _ eq_refl).
  rewrite Htable in Hnote. discriminate.
Qed.

(** ** Ordered lists *)

Section ListRewrite.
Implicit Types (s h : string) (t : list string).

Lemma split_nonempty sep s : Py.split sep s ≠ [].
Proof. destruct s as [|c s]; simpl; repeat case_match; done. Qed.

Lemma split_other sep c s h t :
  c ≠ sep -> Py.split sep s = h :: t ->
  Py.split sep (String c s) = String c h :: t.
Proof. intros Hc Hs. simpl. by rewrite decide_False, Hs. Qed.

Lemma join_cons sep h t :
  t ≠ [] -> Py.join sep (h :: t) = h +:+ sep +:+ Py.join sep t.
Proof. by destruct t. Qed.

Lemma join_head_app sep s h t :
  Py.join sep ((s +:+ h) :: t) = s +:+ Py.join sep (h :: t).
Proof. destruct t; simpl; [done|]. by rewrite app_assoc. Qed.

Lemma split_head_prefix sep s h t :
  Py.split sep s = h :: t -> ∃ r, s = h +:+ r.
Proof.
  revert h t. induction s as [|c s IH]; intros h t Hs; simpl in Hs.
  - simplify_eq. by exists "".
  - case_decide.
    + simplify_eq. by eexists.
    + destruct (Py.split sep s) as [|h' t'] eqn:Hs'; simplify_eq.
      * by exists s.
      * destruct (IH _ _ eq_refl) as [r ->]. by exists r.
Qed.

Lemma startswith_app_l s r p :
  Py.startswith s p = true -> Py.startswith (s +:+ r) p = true.
Proof.
  revert s. induction p as [|a p IH]; intros [|b s] Hp; try done.
  rewrite app_cons. simpl in *. case_decide; [|done]. by apply IH.
Qed.

Lemma split_sep sep s : Py.split sep (String sep s) = "" :: Py.split sep s.
Proof. simpl. by rewrite decide_True. Qed.

Lemma replace_hit s :
  Py.replace_from 0 (nl +:+ "- ") (nl +:+ "#.")
    (String LF (String "-" (String " " s)))
  = nl +:+ "#." +:+ Py.replace_from 0 (nl +:+ "- ") (nl +:+ "#.") s.
Proof. reflexivity. Qed.

Lemma replace_miss old new c s :
  Py.startswith (String c s) old = false ->
  Py.replace_from 0 old new (String c s)
  = String c (Py.replace_from 0 old new s).
Proof. intros Hold. simpl Py.replace_from. by rewrite Hold. Qed.

Lemma rewrite_marker_hit h : Spec.rewrite_marker ("- " +:+ h) = "#." +:+ h.
Proof. reflexivity. Qed.

(** Past the start of a line, the replacement leaves the rest of the line
    alone and rewrites the marker of every later line. *)
Lemma replace_marker_lines n s h t :
  Py.len s <= n -> Py.split LF s = h :: t ->
  Py.replace s (nl +:+ "- ") (nl +:+ "#.")
    = Py.join nl (h :: (Spec.rewrite_marker <$> t)).
Proof.
  unfold Py.replace. revert s h t.
  induction n as [|n IH]; intros [|c s] h t Hn Hs;
    try (by simplify_eq/=); try (unfold Py.len in Hn; simpl in Hn; lia).
  assert (Py.len s <= n) as Hn' by (unfold Py.len in *; simpl in Hn; lia).
  destruct (Py.split LF s) as [|h1 t1] eqn:Hs1;
    [by apply split_nonempty in Hs1|].
  destruct (decide (c = LF)) as [->|Hc].
  - rewrite split_sep, Hs1 in Hs. simplify_eq.
    rewrite fmap_cons, join_cons by done.
    destruct (Py.startswith s "- ") eqn:Hmark.
    + apply startswith_split in Hmark.
      destruct s as [|a [|b s]]; try done.
      change (Py.drop (Py.len "- ") (String a (String b s))) with s in Hmark.
      injection Hmark as -> ->.
      destruct (Py.split LF s) as [|h2 t2] eqn:Hs2;
        [by apply split_nonempty in Hs2|].
      rewrite (split_other LF "-" _ (String " " h2) t2) in Hs1;
        [|done|by apply split_other].
      simplify_eq.
      rewrite replace_hit, (IH s h2 t1);
        [|unfold Py.len in *; simpl in *; lia|done].
      change (String "-" (String " " h2)) with ("- " +:+ h2).
      rewrite (rewrite_marker_hit h2), join_head_app.
      done.
    + assert (Spec.rewrite_marker h1 = h1) as ->.
      { unfold Spec.rewrite_marker.
        destruct (Py.startswith h1 "- ") eqn:Hh1; [|done].
        destruct (split_head_prefix _ _ _ _ Hs1) as [r ->].
        by rewrite (startswith_app_l _ r _ Hh1) in Hmark. }
      rewrite replace_miss, (IH s h1 t1); done.
  - rewrite (split_other LF c s h1 t1) in Hs by done. simplify_eq.
    rewrite replace_miss, (IH s h1 t); try done.
    + change (String c h1) with (String c "" +:+ h1).
      by rewrite join_head_app.
    + simpl. by rewrite decide_False by congruence.
Qed.

End ListRewrite.

(** C9 as stated fails: the output of an ordered list is not the body with
    its markers rewritten, it has one more character. *)
Lemma ordered_list_not_only_markers :
  let body := "-  a" +:+ nl +:+ nl in
  RstRenderer.list body true ≠ Spec.rewrite_markers body
  ∧ RstRenderer.list body true = nl +:+ "#. a" +:+ nl +:+ nl
  ∧ Spec.rewrite_markers body = "#. a" +:+ nl +:+ nl.
Proof. split_and!; [discriminate | reflexivity | reflexivity]. Qed.

(** C9, as the code has it.  The output of an ordered list is a newline
    followed by the body in which every line that begins with the item
    marker has the marker rewritten and nothing else is changed; the output
    of an unordered list is the body. *)
Theorem list_markers (body : string) :
  RstRenderer.list body true = nl +:+ Spec.rewrite_markers body
  ∧ RstRenderer.list body false = body.
Proof.
  split; [|done].
  unfold RstRenderer.list, Spec.rewrite_markers.
  pose proof (split_nonempty LF body) as Hne.
  destruct (Py.split LF body) as [|h t] eqn:Hs; [done|].
  rewrite (replace_marker_lines (S (Py.len body)) (nl +:+ body) ""
             (Py.split LF body)).
  - rewrite Hs, join_cons by done. done.
  - rewrite len_app. unfold Py.len. simpl. lia.
  - done.
Qed.

(** ** Matching *)

Section MatchFacts.
Implicit Types (s p sub : string) (k : string -> option re.state).

Lemma len_drop n s : Py.len (Py.drop n s) = Py.len s - n.
Proof.
  revert s. induction n as [|n IH]; intros [|c s]; try done.
  simpl. rewrite IH. reflexivity.
Qed.

Lemma drop_drop n m s : Py.drop n (Py.drop m s) = Py.drop (m + n) s.
Proof.
  revert s. induction m as [|m IH]; intros [|c s]; try done.
  - by destruct n.
  - simpl. apply IH.
Qed.

Lemma take_take_drop n m s :
  Py.take (m + n) s = Py.take m s +:+ Py.take n (Py.drop m s).
Proof.
  revert s. induction m as [|m IH]; intros [|c s]; try done.
  - by destruct n.
  - simpl. by rewrite app_cons, IH.
Qed.

Lemma startswith_len s p : Py.startswith s p = true -> Py.len p <= Py.len s.
Proof.
  intros Hp. rewrite (startswith_split _ _ Hp), len_app. lia.
Qed.

(** The index [find] returns is one where [sub] occurs, and it fits. *)
Lemma find_Some s sub i :
  Py.find s sub = Some i ->
  Py.startswith (Py.drop i s) sub = true ∧ i + Py.len sub <= Py.len s.
Proof.
  revert i. induction s as [|c s IH]; intros i; simpl.
  - destruct (Py.startswith "" sub) eqn:Hp; [|done].
    intros [= <-]. split; [done|]. by apply startswith_len in Hp.
  - destruct (Py.startswith (String c s) sub) eqn:Hp.
    + intros [= <-]. split; [done|]. by apply startswith_len in Hp.
    + destruct (Py.find s sub) as [j|]; [|done].
      intros [= <-]. destruct (IH j eq_refl) as [? ?].
      split; [done|]. unfold Py.len in *. simpl. lia.
Qed.

(** No occurrence of [sub] starts before the index [find] returns. *)
Lemma find_first s sub i j :
  Py.find s sub = Some i -> j < i -> Py.startswith (Py.drop j s) sub = false.
Proof.
  revert i j. induction s as [|c s IH]; intros i j; simpl.
  - destruct (Py.startswith "" sub); [|done]. intros [= <-]. lia.
  - destruct (Py.startswith (String c s) sub) eqn:Hp.
    + intros [= <-]. lia.
    + destruct (Py.find s sub) as [i'|]; [|done].
      intros [= <-] Hj. destruct j as [|j]; [done|].
      simpl. apply (IH i'); [done|lia].
Qed.

Lemma find_None s sub j :
  Py.find s sub = None -> Py.startswith (Py.drop j s) sub = false.
Proof.
  revert j. induction s as [|c s IH]; intros j; simpl.
  - destruct (Py.startswith "" sub) eqn:Hp; [done|]. by destruct j.
  - destruct (Py.startswith (String c s) sub) eqn:Hp; [done|].
    destruct (Py.find s sub) as [i'|] eqn:Hf; [done|].
    intros _. destruct j as [|j]; [done|]. simpl. by apply IH.
Qed.

Lemma run_lit subject p s g (k : string -> option string -> option re.state) :
  re.run subject (re.lit p) s g k
  = if Py.startswith s p then k (Py.drop (Py.len p) s) g else None.
Proof.
  revert s. induction p as [|a p IH]; intros s; [done|].
  destruct s as [|b s]; [done|]. simpl.
  destruct (decide (b = a)) as [->|Hne].
  - rewrite decide_True by done. apply IH.
  - by rewrite decide_False by congruence.
Qed.

(** A lazy run of any characters stops at the first place where what
    follows it matches. *)
Lemma lazy_many_find s sub k :
  (∀ s', Py.startswith s' sub = false -> k s' = None) ->
  (∀ s', Py.startswith s' sub = true -> is_Some (k s')) ->
  re.lazy_many re.dot_all 0 s k
  = match Py.find s sub with
    | Some i => k (Py.drop i s)
    | None => None
    end.
Proof.
  intros Hmiss Hhit. induction s as [|c s IH]; simpl.
  - destruct (Py.startswith "" sub) eqn:Hp.
    + destruct (Hhit _ Hp) as [st Hst]. simpl. by rewrite Hst.
    + by rewrite (Hmiss _ Hp).
  - destruct (Py.startswith (String c s) sub) eqn:Hp.
    + destruct (Hhit _ Hp) as [st Hst]. simpl. by rewrite Hst.
    + rewrite (Hmiss _ Hp), IH. by destruct (Py.find s sub).
Qed.

(** The lazy run of inline math: the same within one line. *)
Lemma lazy_many_closing s k :
  (∀ s', Py.startswith s' "$" = false -> k s' = None) ->
  (∀ s', Py.startswith s' "$" = true -> is_Some (k s')) ->
  re.lazy_many re.dot 0 s k
  = match Spec.closing_from s with
    | Some i => k (Py.drop i s)
    | None => None
    end.
Proof.
  intros Hmiss Hhit. induction s as [|c s IH]; simpl.
  - by rewrite (Hmiss "").
  - destruct (decide (c = "$"%char)) as [->|Hc].
    + destruct (Hhit (String "$" s) eq_refl) as [st Hst]. simpl.
      by rewrite Hst.
    + rewrite (Hmiss (String c s)) by (simpl; by rewrite decide_False by congruence).
      unfold re.dot. destruct (decide (c = LF)) as [->|Hlf].
      * done.
      * rewrite bool_decide_eq_false_2 by done. simpl.
        fold re.dot. rewrite IH. by destruct (Spec.closing_from s).
Qed.

Lemma closing_from_le s i : Spec.closing_from s = Some i -> i < Py.len s.
Proof.
  revert i. induction s as [|c s IH]; intros i; simpl; [done|].
  repeat case_decide; try done.
  - intros [= <-]. unfold Py.len. simpl. lia.
  - destruct (Spec.closing_from s) as [j|]; [|done].
    intros [= <-]. specialize (IH j eq_refl). unfold Py.len in *. simpl. lia.
Qed.

Lemma closing_from_dollar s i :
  Spec.closing_from s = Some i -> Py.startswith (Py.drop i s) "$" = true.
Proof.
  revert i. induction s as [|c s IH]; intros i; simpl; [done|].
  repeat case_decide; try done.
  - intros [= <-]. subst c. done.
  - destruct (Spec.closing_from s) as [j|]; [|done].
    intros [= <-]. by apply IH.
Qed.

(** A lazy run from which every character may be taken ends, at the latest
    at the end of the text. *)
Lemma lazy_many_total (p : ascii -> bool) s k :
  (∀ c, p c = true) -> is_Some (k "") ->
  ∃ j st, j <= Py.len s ∧ re.lazy_many p 0 s k = Some st
          ∧ k (Py.drop j s) = Some st.
Proof.
  intros Hp Hend. induction s as [|c s IH]; simpl.
  - destruct Hend as [st Hst]. exists 0, st. by rewrite Hst.
  - destruct (k (String c s)) as [st|] eqn:Hk.
    + exists 0, st. split; [lia|done].
    + rewrite Hp. destruct IH as (j & st & Hj & Hrun & Hst).
      exists (S j), st. split; [unfold Py.len in *; simpl; lia|done].
Qed.

Lemma lazy_many_cont (p : ascii -> bool) min s k st :
  re.lazy_many p min s k = Some st -> ∃ s', k s' = Some st.
Proof.
  revert min. induction s as [|c s IH]; intros [|min]; simpl.
  - destruct (k "") eqn:Hk; [|done]. intros [= <-]. eauto.
  - done.
  - destruct (k (String c s)) eqn:Hk; [intros [= <-]; eauto|].
    destruct (p c); [apply IH|done].
  - destruct (p c); [apply IH|done].
Qed.

Lemma greedy_many_cont (p : ascii -> bool) min s k st :
  re.greedy_many p min s k = Some st -> ∃ s', k s' = Some st.
Proof.
  revert min. induction s as [|c s IH]; intros min; simpl.
  - destruct min; [eauto|done].
  - destruct (p c).
    + destruct (re.greedy_many p (pred min) s k) eqn:Hg.
      * intros [= <-]. by eapply IH.
      * destruct min; [eauto|done].
    + destruct min; [eauto|done].
Qed.

(** A pattern without a group hands the group it was given to what
    follows it. *)
Lemma run_groupless subject r s g
    (k : string -> option string -> option re.state) st :
  re.groupless r = true ->
  re.run subject r s g k = Some st -> ∃ s', k s' g = Some st.
Proof.
  revert s g k st.
  induction r as [| | |c|p|r1 IH1 r2 IH2|r1 IH1 r2 IH2|r IH|min p|min p|r IH|r IH];
    intros s g k st Hg; simpl in *.
  - eauto.
  - case_decide; [eauto|done].
  - case_decide; [eauto|done].
  - destruct s as [|a s]; [done|]. case_decide; [eauto|done].
  - destruct s as [|a s]; [done|]. destruct (p a); [eauto|done].
  - apply andb_prop in Hg as [Hg1 Hg2]. intros Hrun.
    destruct (IH1 _ _ _ _ Hg1 Hrun) as [s1 Hrun2]. by eapply IH2.
  - apply andb_prop in Hg as [Hg1 Hg2].
    destruct (re.run subject r1 s g k) eqn:Hr1.
    + intros [= <-]. by eapply IH1.
    + by apply IH2.
  - destruct (re.run subject r s g k) eqn:Hr.
    + intros [= <-]. by eapply IH.
    + eauto.
  - intros Hrun. by apply lazy_many_cont in Hrun.
  - intros Hrun. by apply greedy_many_cont in Hrun.
  - done.
  - destruct (re.run subject r s g (fun s' g' => Some (s', g')))
      as [[s1 g1]|] eqn:Hr; [|done].
    destruct (IH _ _ _ _ Hg Hr) as [s2 [= _ <-]]. eauto.
Qed.

End MatchFacts.

(** ** The block math rule *)

(** What the rule matches: the text must open with the delimiter, and the
    match ends with the first delimiter that follows. *)
Lemma block_math_match (text : string) :
  re.match_ BlockLexer.block_math text
  = if Py.startswith text "$$" then
      match Py.find (Py.drop 2 text) "$$" with
      | Some i =>
          Some {| re.group0 := Py.take (i + 4) text;
                  re.group1 := Some (Py.take i (Py.drop 2 text)) |}
      | None => None
      end
    else None.
Proof.
  unfold re.match_, BlockLexer.block_math. cbn [re.run].
  rewrite decide_True by done. rewrite run_lit.
  destruct (Py.startswith text "$$") eqn:Hopen; [|done].
  change (Py.len "$$") with 2. set (body := Py.drop 2 text).
  rewrite (lazy_many_find body "$$").
  - destruct (Py.find body "$$") as [i|] eqn:Hfind; [|done].
    destruct (find_Some _ _ _ Hfind) as [Hclose Hfit].
    rewrite run_lit, Hclose. change (Py.len "$$") with 2 in *.
    pose proof (startswith_len _ _ Hopen) as Hlen.
    change (Py.len "$$") with 2 in Hlen.
    assert (Py.len body = Py.len text - 2) as Hbody by apply len_drop.
    rewrite !len_drop. fold body. rewrite Hbody. do 2 f_equal.
    + f_equal. lia.
    + do 2 f_equal. lia.
  - intros s' Hs'. by rewrite run_lit, Hs'.
  - intros s' Hs'. rewrite run_lit, Hs'. eauto.
Qed.

(** C6 as stated fails: read as a greedy match the rule would take the
    text up to the last delimiter, the rule of the code stops at the first
    one. *)
Lemma block_math_not_greedy :
  let text := "$$a$$b$$" in
  re.match_ BlockLexer.block_math text ≠ re.match_ Spec.block_math_greedy text
  ∧ re.match_ BlockLexer.block_math text
    = Some {| re.group0 := "$$a$$"; re.group1 := Some "a" |}
  ∧ re.match_ Spec.block_math_greedy text
    = Some {| re.group0 := "$$a$$b$$"; re.group1 := Some "a$$b" |}.
Proof. split_and!; [discriminate | reflexivity | reflexivity]. Qed.

(** C6, as the code has it.  The rule matches a text that opens with the
    delimiter and has a closing one; the interior may hold newlines, and it
    ends at the first closing delimiter, as the match is lazy.  The rule is
    the first of the default rules, before every rule of mistune, and when
    it matches, the lexer appends one token of type block_math whose text
    is the interior. *)
Theorem block_math_rule `{Mistune} :
  (∀ text,
     re.match_ BlockLexer.block_math text
     = if Py.startswith text "$$" then
         match Py.find (Py.drop 2 text) "$$" with
         | Some i =>
             Some {| re.group0 := Py.take (i + 4) text;
                     re.group1 := Some (Py.take i (Py.drop 2 text)) |}
         | None => None
         end
       else None)
  ∧ (∀ body rest,
     Py.find (body +:+ "$$" +:+ rest) "$$" = Some (Py.len body) ->
     re.match_ BlockLexer.block_math ("$$" +:+ body +:+ "$$" +:+ rest)
     = Some {| re.group0 := "$$" +:+ body +:+ "$$";
               re.group1 := Some body |})
  ∧ (∀ text, Py.startswith text "$$" = false ∨
             Py.find (Py.drop 2 text) "$$" = None ->
       re.match_ BlockLexer.block_math text = None)
  ∧ BlockLexer.default_rules BlockLexer.__init__
    = "block_math" :: BlockLexer_default_rules
  ∧ (∀ text m,
       re.match_ BlockLexer.block_math text = Some m ->
       BlockLexer.manipulate BlockLexer.__init__
         (BlockLexer.default_rules BlockLexer.__init__) text
       = Return (Some (BlockLexer.parse_block_math BlockLexer.__init__ m,
                       "block_math", m))
       ∧ BlockLexer.tokens (BlockLexer.parse_block_math BlockLexer.__init__ m)
         = [ <["type" := VStr "block_math"]>
               (<["text" := BlockLexer.group1_value m]> ∅) ]).
Proof.
  split_and!.
  - apply block_math_match.
  - intros body rest Hfind. rewrite block_math_match.
    rewrite (startswith_app _ "$$").
    assert (Py.drop 2 ("$$" +:+ body +:+ "$$" +:+ rest)
            = body +:+ "$$" +:+ rest) as -> by reflexivity.
    rewrite Hfind, take_app. do 2 f_equal.
    transitivity (Py.take (Py.len ("$$" +:+ body +:+ "$$"))
                    (("$$" +:+ body +:+ "$$") +:+ rest)).
    + f_equal; [|by rewrite !app_assoc].
      rewrite !len_app. unfold Py.len. simpl. lia.
    + apply take_app.
  - intros text Hno. rewrite block_math_match.
    destruct Hno as [-> | Hno]; [done|]. rewrite Hno. by case_match.
  - reflexivity.
  - intros text m Hm. split; [|reflexivity].
    cbn [BlockLexer.default_rules BlockLexer.__init__ BlockLexer.enable_math
         BlockLexer.manipulate BlockLexer.rules].
    rewrite lookup_insert_eq, Hm. unfold BlockLexer.parse_.
    by rewrite decide_True.
Qed.

Lemma block_math_rule_witness :
  re.match_ BlockLexer.block_math
    ("$$" +:+ ("x^2" +:+ nl +:+ "+ y") +:+ "$$" +:+ " and $$z$$")
  = Some {| re.group0 := "$$" +:+ ("x^2" +:+ nl +:+ "+ y") +:+ "$$";
            re.group1 := Some ("x^2" +:+ nl +:+ "+ y") |}.
Proof.
  exact (proj1 (proj2 (@block_math_rule Sample.mistune))
           ("x^2" +:+ nl +:+ "+ y") " and $$z$$" eq_refl).
Defined.

(** ** The inline math rule and the text rule *)

(** What the math rule matches: after the opening dollar sign, the text up
    to the closing one. *)
Lemma math_match (rest : string) :
  re.match_ InlineLexer.math ("$" +:+ rest)
  = match Spec.closing_dollar rest with
    | Some i =>
        Some {| re.group0 := Py.take (i + 2) ("$" +:+ rest);
                re.group1 := Some (Py.take i rest) |}
    | None => None
    end.
Proof.
  unfold re.match_, InlineLexer.math. cbn [re.run].
  rewrite decide_True by done. rewrite app_cons.
  rewrite decide_True by done. change ("" +:+ rest) with rest.
  destruct rest as [|c s]; [done|]. cbn [re.lazy_many Spec.closing_dollar].
  unfold re.dot at 1. destruct (decide (c = LF)) as [->|Hlf]; [done|].
  rewrite bool_decide_eq_false_2 by done. cbn [negb].
  rewrite lazy_many_closing.
  - destruct (Spec.closing_from s) as [i|] eqn:Hclose; [|done].
    pose proof (closing_from_le _ _ Hclose) as Hi.
    pose proof (closing_from_dollar _ _ Hclose) as Hdollar.
    pose proof (len_drop i s) as Hlen.
    destruct (Py.drop i s) as [|a s3] eqn:Hdrop; [done|].
    simpl in Hdollar. case_decide; [subst a|done].
    cbn [fmap option_fmap option_map]. rewrite decide_True by done.
    unfold Py.len in *. simpl in Hlen. simpl String.length.
    do 2 f_equal.
    + replace (S (S (String.length s)) - String.length s3) with (i + 1 + 2)
        by lia.
      replace (S i + 2) with (i + 1 + 2) by lia. done.
    + f_equal. replace (S (String.length s) - S (String.length s3))
        with (S i) by lia. done.
  - intros [|a s'] Hs'; [done|]. simpl in Hs'.
    case_decide; [done|]. by rewrite decide_False by congruence.
  - intros [|a s'] Hs'; [done|]. simpl in Hs'.
    case_decide; [subst a|done]. rewrite decide_True by done. eauto.
Qed.

Lemma any_true (c : ascii) : InlineLexer.any c = true.
Proof. unfold InlineLexer.any, re.non_space. by destruct (re.space c). Qed.

(** A lazy run of one or more characters that a lookahead ends matches
    every text that is not empty, when the lookahead accepts the end of the
    text. *)
Lemma lazy_until_match (ahead : re.regex) (c : ascii) (s : string) :
  re.groupless ahead = true ->
  (∀ subject,
     is_Some (re.run subject ahead "" None (fun s' g' => Some (s', g')))) ->
  ∃ j, j <= Py.len s
       ∧ re.match_
           (re.Seq re.Bos (re.Seq (re.Lazy 1 InlineLexer.any) (re.Look ahead)))
           (String c s)
         = Some {| re.group0 := String c (Py.take j s); re.group1 := None |}.
Proof.
  intros Hgroupless Hend. unfold re.match_. cbn [re.run].
  rewrite decide_True by done. cbn [re.lazy_many]. rewrite any_true.
  match goal with
  | |- context [re.lazy_many _ 0 s ?k] =>
      destruct (lazy_many_total InlineLexer.any s k any_true)
        as (j & st & Hj & -> & Hst)
  end.
  - destruct (Hend (String c s)) as [[s1 g1] ->]. by eexists.
  - exists j. split; [done|].
    destruct (re.run (String c s) ahead (Py.drop j s) None
                (fun s' g' => Some (s', g'))) as [[s1 g1]|] eqn:Hlook;
      [|done].
    apply run_groupless in Hlook as [s2 [= _ <-]]; [|done].
    injection Hst as <-. rewrite len_drop.
    do 2 f_equal. unfold Py.len in *. simpl String.length.
    replace (S (String.length s) - (String.length s - j)) with (S j) by lia.
    done.
Qed.

(** The text rule matches every text that is not empty. *)
Lemma text_match (c : ascii) (s : string) :
  ∃ j, j <= Py.len s
       ∧ re.match_ InlineLexer.text (String c s)
         = Some {| re.group0 := String c (Py.take j s); re.group1 := None |}.
Proof.
  apply lazy_until_match; [done|]. intros subject. by eexists.
Qed.


Lemma len_take n s : n <= Py.len s -> Py.len (Py.take n s) = n.
Proof.
  revert s. induction n as [|n IH]; intros [|c s] Hn; try done.
  - unfold Py.len in Hn. simpl in Hn. lia.
  - unfold Py.len in *. simpl in *. rewrite IH; lia.
Qed.


(** ** The examples of the specification, run on the model *)

Section Examples.
Local Existing Instance cpython_dedent.
Local Existing Instance Sample.mistune.

Example header_title :
  RstRenderer.header (RstRenderer.__init__ ∅) "Title" 1 None
  = Return ("Title" +:+ nl +:+ "=====" +:+ nl +:+ nl).
Proof. reflexivity. Qed.

Example header_level_8 :
  RstRenderer.header (RstRenderer.__init__ ∅) "Title" 8 None
  = Raise (IndexError ["string index out of range"]).
Proof. reflexivity. Qed.

Example block_math_round_trip :
  ∃ self m,
    BlockLexer.manipulate BlockLexer.__init__
      (BlockLexer.default_rules BlockLexer.__init__) "$$x^2$$"
    = Return (Some (self, "block_math", m))
    ∧ Markdown.output Markdown.output_block_math (BlockLexer.tokens self)
      = Return (".. math:: " +:+ nl +:+ nl +:+ "   x^2" +:+ nl +:+ nl).
Proof. do 2 eexists. split; reflexivity. Qed.

Example inline_math_round_trip :
  InlineLexer.step (InlineLexer.__init__ (RstRenderer.__init__ ∅))
    "$x^2$ is even"
  = Return (":math:`x^2`", " is even").
Proof. reflexivity. Qed.

Example text_stops_at_dollar :
  InlineLexer.step (InlineLexer.__init__ (RstRenderer.__init__ ∅))
    "so $x^2$ is even"
  = Return ("so ", "$x^2$ is even").
Proof. reflexivity. Qed.

Example image_script_defanged :
  let out := RstRenderer.image "javascript:alert(1)" None "x" in
  out = ".. image:: " +:+ nl +:+ "    :alt: x" +:+ nl +:+ nl
        +:+ "   " +:+ nl +:+ nl
  ∧ Py.find out "javascript:" = None.
Proof. split; reflexivity. Qed.

Example raw_html_block :
  RstRenderer.block_html (RstRenderer.__init__ ∅)
    ("<div>" +:+ nl +:+ "  <p>x</p>" +:+ nl +:+ "</div>")
  = ".. raw:: html" +:+ nl +:+ nl
    +:+ "   <div>" +:+ nl +:+ "     <p>x</p>" +:+ nl +:+ "   </div>"
    +:+ nl +:+ nl.
Proof. reflexivity. Qed.

Example code_block_dedented :
  RstRenderer.block_code ("    a" +:+ nl +:+ "      b" +:+ nl) (Some "python")
  = ".. code-block:: python" +:+ nl +:+ nl
    +:+ "   a" +:+ nl +:+ "     b" +:+ nl +:+ nl.
Proof. reflexivity. Qed.

Example ordered_list_of_two :
  RstRenderer.list ("-  a" +:+ nl +:+ nl +:+ "-  b" +:+ nl +:+ nl) true
  = nl +:+ "#. a" +:+ nl +:+ nl +:+ "#. b" +:+ nl +:+ nl.
Proof. reflexivity. Qed.

Example autolink_reference :
  RstRenderer.autolink "ref:some-label" false = ":ref:`ref:some-label <some-label>`".
Proof. reflexivity. Qed.

End Examples.

(** * Further properties of the renderer and of the lexers *)

(** ** Lines *)

Section LineFacts.
Implicit Types (s t : string) (c sep : ascii) (lines : list string).

Lemma contains_app c s t :
  Py.contains c (s +:+ t) = Py.contains c s || Py.contains c t.
Proof.
  induction s as [|a s IH]; [done|].
  rewrite app_cons. simpl. by case_decide.
Qed.

(** The pieces [split] returns do not hold the separator. *)
Lemma split_no_sep sep s :
  Forall (fun line => Py.contains sep line = false) (Py.split sep s).
Proof.
  induction s as [|c s IH]; simpl.
  - by repeat constructor.
  - case_decide.
    + by constructor.
    + destruct (Py.split sep s) as [|h t]; inversion IH; simplify_eq.
      * by repeat constructor; simpl; rewrite decide_False.
      * constructor; [|done]. simpl. by rewrite decide_False.
Qed.

Lemma split_app_sep sep s t :
  Py.split sep (s +:+ String sep t) = Py.split sep s ++ Py.split sep t.
Proof.
  induction s as [|c s IH].
  - change ("" +:+ String sep t) with (String sep t). by rewrite split_sep.
  - rewrite app_cons. simpl. case_decide; [by rewrite IH|].
    rewrite IH. pose proof (split_nonempty sep s).
    by destruct (Py.split sep s).
Qed.

Lemma split_line sep s :
  Py.contains sep s = false -> Py.split sep s = [s].
Proof.
  induction s as [|c s IH]; [done|]. simpl.
  case_decide; [done|]. intros Hs. by rewrite (IH Hs).
Qed.

(** Joining lines and splitting the result gives the lines back. *)
Lemma split_join sep lines :
  lines ≠ [] ->
  Forall (fun line => Py.contains sep line = false) lines ->
  Py.split sep (Py.join (String sep "") lines) = lines.
Proof.
  intros Hne Hlines. induction Hlines as [|h t Hh Ht IH]; [done|].
  destruct t as [|h' t'].
  - by apply split_line.
  - rewrite join_cons by done.
    change (h +:+ String sep "" +:+ Py.join (String sep "") (h' :: t'))
      with (h +:+ String sep (Py.join (String sep "") (h' :: t'))).
    rewrite split_app_sep, split_line, IH; done.
Qed.

(** Splitting a text and joining the pieces gives the text back. *)
Lemma join_split sep s : Py.join (String sep "") (Py.split sep s) = s.
Proof.
  induction s as [|c s IH]; [done|]. simpl.
  pose proof (split_nonempty sep s) as Hne. case_decide.
  - subst c. rewrite join_cons by done. by rewrite IH.
  - destruct (Py.split sep s) as [|h t]; [done|].
    change (String c h) with (String c "" +:+ h).
    by rewrite join_head_app, IH.
Qed.

End LineFacts.

(** ** Indentation and directives *)

Lemma split_then_line sep line rest :
  Py.contains sep line = false ->
  Py.split sep (line +:+ String sep rest) = line :: Py.split sep rest.
Proof. intros Hline. by rewrite split_app_sep, split_line. Qed.

Lemma split_then_lines sep (lines : list string) rest :
  Forall (fun line => Py.contains sep line = false) lines ->
  Py.split sep (foldr (fun line r => line +:+ String sep "" +:+ r) rest lines)
  = lines ++ Py.split sep rest.
Proof.
  induction 1 as [|line lines Hline _ IH]; simpl; [done|].
  change (line +:+ String sep "" +:+ ?r) with (line +:+ String sep r).
  by rewrite split_then_line, IH.
Qed.

Lemma indented_split `{Dedent} (content : string) :
  Py.split LF (RstRenderer._indented content)
  = (fun line => "   " +:+ line) <$> Py.split LF (dedent content).
Proof.
  unfold RstRenderer._indented. apply split_join.
  - pose proof (split_nonempty LF (dedent content)).
    by destruct (Py.split LF (dedent content)).
  - apply Forall_fmap.
    eapply Forall_impl; [apply split_no_sep|].
    intros line Hline. simpl. by rewrite contains_app, Hline.
Qed.

(** X1. The indented text has one line for each line of the dedented
    content, and each is that line after three blanks: taking the three
    blanks off every line gives the dedented content back.  A block quote
    is such an indented text. *)
Theorem indented_lines `{Dedent} (content : string) :
  Py.split LF (RstRenderer._indented content)
    = (fun line => "   " +:+ line) <$> Py.split LF (dedent content)
  ∧ Py.join nl (Py.drop 3 <$> Py.split LF (RstRenderer._indented content))
    = dedent content
  ∧ RstRenderer.block_quote content = RstRenderer._indented content.
Proof.
  split_and!; [apply indented_split| |done].
  rewrite indented_split, <- list_fmap_compose.
  rewrite (list_fmap_ext _ id (Py.split LF (dedent content)))
    by (by intros).
  rewrite list_fmap_id. apply join_split.
Qed.

Lemma foldl_lines (attributes : list (string * string)) (out tail : string) :
  foldl (fun out kv => out +:+ "    :" +:+ kv.1 +:+ ": " +:+ kv.2 +:+ nl)
        out attributes +:+ tail
  = out +:+ foldr (fun line r => line +:+ nl +:+ r) tail
              ((fun kv => "    :" +:+ kv.1 +:+ ": " +:+ kv.2) <$> attributes).
Proof.
  revert out. induction attributes as [|kv attributes IH]; intros out; simpl.
  - done.
  - rewrite IH. by rewrite !app_assoc.
Qed.

(** The text of a directive, one line after the other. *)
Lemma directive_text `{Dedent} (name content : string)
    (args : list string) (attributes : list (string * string)) :
  RstRenderer._directive name content args attributes
  = foldr (fun line r => line +:+ nl +:+ r)
      (nl +:+ RstRenderer._indented content +:+ nl +:+ nl)
      ((".. " +:+ name +:+ ":: " +:+ Py.join ", " args)
       :: ((fun kv => "    :" +:+ kv.1 +:+ ": " +:+ kv.2) <$> attributes)).
Proof.
  unfold RstRenderer._directive. rewrite !app_assoc.
  rewrite foldl_lines. simpl foldr. by rewrite !app_assoc.
Qed.

(** X2. The layout of a directive.  When the directive line and the
    attributes hold no newline, the output has these lines: the directive
    line, one line for each attribute in order, an empty line, the lines of
    the indented content, and two empty lines. *)
Theorem directive_lines `{Dedent} (name content : string)
    (args : list string) (attributes : list (string * string)) :
  Py.contains LF (".. " +:+ name +:+ ":: " +:+ Py.join ", " args) = false ->
  Forall (fun kv => Py.contains LF kv.1 = false ∧ Py.contains LF kv.2 = false)
         attributes ->
  Py.split LF (RstRenderer._directive name content args attributes)
  = [".. " +:+ name +:+ ":: " +:+ Py.join ", " args]
    ++ ((fun kv => "    :" +:+ kv.1 +:+ ": " +:+ kv.2) <$> attributes)
    ++ [""]
    ++ ((fun line => "   " +:+ line) <$> Py.split LF (dedent content))
    ++ [""; ""].
Proof.
  intros Hhead Hattrs. rewrite directive_text.
  rewrite (split_then_lines LF).
  - simpl. do 2 f_equal.
    change ("" +:+ RstRenderer._indented content +:+ nl +:+ nl)
      with (RstRenderer._indented content +:+ String LF nl).
    by rewrite split_app_sep, indented_split.
  - constructor; [done|]. apply Forall_fmap.
    eapply Forall_impl; [exact Hattrs|].
    intros [k v] [Hk Hv]. simpl in *.
    by rewrite !contains_app, Hk, Hv.
Qed.

Lemma directive_lines_witness :
  Py.split LF (@RstRenderer._directive cpython_dedent "image" "" ["a.png"]
                 [("alt", "x")])
  = [".. image:: a.png"; "    :alt: x"; ""; "   "; ""; ""].
Proof.
  apply (@directive_lines cpython_dedent "image" "" ["a.png"] [("alt", "x")]).
  - reflexivity.
  - repeat constructor.
Defined.

(** ** Code blocks *)

Lemma rstrip_only sep n : Py.rstrip sep (Py.mul (String sep "") n) = "".
Proof.
  induction n as [|n IH]; [done|].
  change (Py.mul (String sep "") (S n))
    with (String sep (Py.mul (String sep "") n)).
  simpl. rewrite IH. by rewrite decide_True.
Qed.

Lemma rstrip_app_sep sep s n :
  Py.rstrip sep (s +:+ Py.mul (String sep "") n) = Py.rstrip sep s.
Proof.
  induction s as [|a s IH].
  - change ("" +:+ ?t) with t. by rewrite rstrip_only.
  - rewrite app_cons. simpl. by rewrite IH.
Qed.

(** What [rstrip] takes off is a run of the character. *)
Lemma rstrip_split sep s :
  ∃ n, s = Py.rstrip sep s +:+ Py.mul (String sep "") n.
Proof.
  induction s as [|a s [n IH]]; [by exists 0|]. simpl.
  destruct (Py.rstrip sep s) as [|b r] eqn:Hr.
  - case_decide.
    + subst a. exists (S n). simpl in IH. by rewrite IH at 1.
    + exists n. rewrite app_cons. by rewrite <- IH.
  - exists n. rewrite app_cons. by rewrite <- IH.
Qed.

(** What [rstrip] leaves does not end with the character. *)
Lemma rstrip_end sep s t : Py.rstrip sep s ≠ t +:+ String sep "".
Proof.
  revert t. induction s as [|a s IH]; intros t; simpl.
  - by destruct t.
  - destruct (Py.rstrip sep s) as [|b r] eqn:Hr.
    + case_decide; [by destruct t|].
      destruct t as [|c t]; [by intros [= ?]|].
      rewrite app_cons. intros [= _ Heq]. by apply (IH t).
    + destruct t as [|c t]; [done|]. rewrite app_cons.
      intros [= _ Heq]. by apply (IH t).
Qed.

(** X3. A code block does not depend on the newlines that end the code:
    they are taken off, all of them and nothing else, before the directive
    is built.  A missing language and an empty one both give the
    language none. *)
Theorem block_code_trailing_newlines `{Dedent} (code : string)
    (lang : option string) (n : nat) :
  RstRenderer.block_code (code +:+ Py.mul nl n) lang
    = RstRenderer.block_code code lang
  ∧ (∃ k, code = Py.rstrip LF code +:+ Py.mul nl k
          ∧ RstRenderer.block_code code lang
            = RstRenderer.block_code (Py.rstrip LF code) lang)
  ∧ (∀ t, Py.rstrip LF code ≠ t +:+ nl)
  ∧ RstRenderer.block_code code None = RstRenderer.block_code code (Some "")
  ∧ RstRenderer.block_code code None
    = RstRenderer._directive "code-block" (Py.rstrip LF code) ["none"] [].
Proof.
  split_and!; try done.
  - unfold RstRenderer.block_code. by rewrite (rstrip_app_sep LF).
  - destruct (rstrip_split LF code) as [k Hk]. exists k. split; [done|].
    unfold RstRenderer.block_code.
    assert (Py.rstrip LF (Py.rstrip LF code) = Py.rstrip LF code) as ->;
      [|done].
    symmetry.
    transitivity
      (Py.rstrip LF (Py.rstrip LF code +:+ Py.mul (String LF "") k)).
    + by rewrite <- Hk.
    + apply (rstrip_app_sep LF).
  - intros t. apply rstrip_end.
Qed.

(** ** Header levels *)

Lemma nth_is_Some (s : string) (i : nat) :
  is_Some (Py.nth s i) ↔ i < Py.len s.
Proof.
  revert i. induction s as [|c s IH]; intros i; simpl.
  - split; [by intros [? ?]|]. unfold Py.len. simpl. lia.
  - destruct i as [|i]; unfold Py.len in *; simpl.
    + split; [lia|eauto].
    + rewrite IH. lia.
Qed.

Lemma getitem_is_Some (s : string) (i : Z) :
  is_Some (Py.getitem s i)
  ↔ (- Z.of_nat (Py.len s) <= i < Z.of_nat (Py.len s))%Z.
Proof.
  unfold Py.getitem.
  destruct (Z.leb_spec 0 i) as [Hpos|Hpos].
  - rewrite nth_is_Some. lia.
  - destruct (Z.leb_spec (- Z.of_nat (Py.len s)) i) as [Hneg|Hneg].
    + rewrite nth_is_Some. lia.
    + split; [by intros [? ?] | lia].
Qed.

(** X4. With a string of glyphs, a header is rendered exactly for the
    levels from minus the number of glyphs up to, and without, the number
    of glyphs; for any other level it raises [IndexError], whatever the
    text: with the message of a string index out of range when the level
    fits an index-sized integer, and with the message that it cannot fit
    one when it does not.  A negative level counts the glyphs from the
    end. *)
Theorem header_level_bounds (self : RstRenderer.t) (ls text : string)
    (level : Z) (raw : option string) :
  RstRenderer.levels self = VStr ls ->
  (is_Some (returned (RstRenderer.header self text level raw))
   ↔ (- Z.of_nat (Py.len ls) <= level < Z.of_nat (Py.len ls))%Z)
  ∧ (¬ (- Z.of_nat (Py.len ls) <= level < Z.of_nat (Py.len ls))%Z ->
     RstRenderer.header self text level raw
     = Raise (IndexError
                [if ((- 2 ^ 63 <=? level) && (level <? 2 ^ 63))%Z
                 then "string index out of range"
                 else "cannot fit 'int' into an index-sized integer"]))
  ∧ ((- Z.of_nat (Py.len ls) <= level < 0)%Z ->
     RstRenderer.header self text level raw
     = RstRenderer.header self text (level + Z.of_nat (Py.len ls)) raw).
Proof.
  intros Hls. pose proof (getitem_is_Some ls level) as Hget.
  unfold RstRenderer.header. rewrite Hls. split_and!.
  - destruct (Py.getitem ls level) as [c|]; simpl.
    + split; [intros _; apply Hget; eauto | eauto].
    + split; [by intros [? ?] | intros Hin; by apply Hget in Hin as [? ?]].
  - intros Hout. destruct (Py.getitem ls level) as [c|]; [|done].
    exfalso. apply Hout, Hget. eauto.
  - intros Hneg. unfold Py.getitem.
    destruct (Z.leb_spec 0 level); [lia|].
    destruct (Z.leb_spec (- Z.of_nat (Py.len ls)) level); [|lia].
    destruct (Z.leb_spec 0 (level + Z.of_nat (Py.len ls))); [|lia].
    rewrite (Z.add_comm level).
    assert (is_Some (Py.nth ls (Z.to_nat (Z.of_nat (Py.len ls) + level))))
      as [c ->] by (apply nth_is_Some; lia).
    done.
Qed.

Lemma header_level_bounds_witness :
  RstRenderer.header (RstRenderer.__init__ ∅) "Title" (-7) None
  = RstRenderer.header (RstRenderer.__init__ ∅) "Title" 1 None
  ∧ RstRenderer.header (RstRenderer.__init__ ∅) "Title" (-9) None
    = Raise (IndexError ["string index out of range"])
  ∧ RstRenderer.header (RstRenderer.__init__ ∅) "Title" (2 ^ 63) None
    = Raise (IndexError ["cannot fit 'int' into an index-sized integer"]).
Proof.
  assert (RstRenderer.levels (RstRenderer.__init__ ∅)
          = VStr RstRenderer.default_levels) as Hls by reflexivity.
  destruct (header_level_bounds _ _ "Title" (-7) None Hls)
    as (_ & _ & Hneg).
  destruct (header_level_bounds _ _ "Title" (-9) None Hls)
    as (_ & Hout & _).
  destruct (header_level_bounds _ _ "Title" (2 ^ 63) None Hls)
    as (_ & Hbig & _).
  split_and!.
  - apply Hneg. vm_compute. split; [discriminate | reflexivity].
  - apply Hout. vm_compute. intros [Hle _]. by apply Hle.
  - apply Hbig. vm_compute. intros [_ Hlt]. discriminate.
Defined.

(** X5. A [levels] keyword that is given, but is not a string, replaces
    the default all the same: every header then raises [TypeError],
    whatever its text and level. *)
Theorem header_levels_not_a_string (kwargs : gmap string value) (v : value)
    (text : string) (level : Z) (raw : option string) :
  kwargs !! "levels" = Some v ->
  (∀ ls, v ≠ VStr ls) ->
  ∃ message,
    RstRenderer.header (RstRenderer.__init__ kwargs) text level raw
    = Raise (TypeError [message]).
Proof.
  intros Hkw Hv. unfold RstRenderer.header, RstRenderer.__init__. simpl.
  rewrite Hkw. simpl. destruct v; try by eexists.
  by destruct (Hv s).
Qed.

Lemma header_levels_not_a_string_witness :
  ∃ message,
    RstRenderer.header (RstRenderer.__init__ (<["levels" := VNone]> ∅))
      "Title" 1 None
    = Raise (TypeError [message]).
Proof.
  assert ((<["levels" := VNone]> ∅ : gmap string value) !! "levels"
          = Some VNone) as Hkw by reflexivity.
  exact (header_levels_not_a_string _ VNone "Title" 1 None Hkw
           (fun ls Heq => eq_ind VNone (fun v => match v with
                                                 | VNone => True
                                                 | _ => False
                                                 end) I (VStr ls) Heq)).
Defined.

(** ** Ordered lists, line by line *)

Lemma replace_from_len (old new s : string) (skip : nat) :
  old ≠ "" -> Py.len old = Py.len new -> skip <= Py.len s ->
  Py.len (Py.replace_from skip old new s) = Py.len s - skip.
Proof.
  intros Hold Hlen. revert skip.
  induction s as [|c s IH]; intros skip Hskip; [done|].
  assert (Py.len (String c s) = S (Py.len s)) as Hcons by done.
  rewrite Hcons in *. simpl. destruct skip as [|skip].
  - destruct (Py.startswith (String c s) old) eqn:Hhit.
    + apply startswith_len in Hhit. rewrite Hcons in Hhit.
      assert (0 < Py.len old) by (destruct old; [done|]; unfold Py.len; simpl; lia).
      rewrite len_app, IH by lia. lia.
    + assert (Py.len (String c (Py.replace_from 0 old new s))
              = S (Py.len (Py.replace_from 0 old new s))) as -> by done.
      rewrite IH by lia. lia.
  - rewrite IH by lia. lia.
Qed.

Lemma contains_drop (c : ascii) (n : nat) (s : string) :
  Py.contains c s = false -> Py.contains c (Py.drop n s) = false.
Proof.
  revert s. induction n as [|n IH]; intros [|a s]; try done.
  simpl. case_decide; [done|]. apply IH.
Qed.

Lemma rewrite_marker_no_newline (line : string) :
  Py.contains LF line = false ->
  Py.contains LF (Spec.rewrite_marker line) = false.
Proof.
  intros Hline. unfold Spec.rewrite_marker.
  destruct (Py.startswith line "- "); [|done].
  rewrite contains_app. by rewrite contains_drop.
Qed.

Lemma rewrite_marker_no_marker (line : string) :
  Py.startswith (Spec.rewrite_marker line) "- " = false.
Proof.
  unfold Spec.rewrite_marker.
  by destruct (Py.startswith line "- ") eqn:Hline.
Qed.

(** X6. An ordered list is rendered one character longer than its body:
    the rewriting of the markers keeps the length, and a newline is put
    before the body. *)
Theorem ordered_list_length (body : string) :
  Py.len (RstRenderer.list body true) = S (Py.len body).
Proof.
  unfold RstRenderer.list, Py.replace.
  rewrite replace_from_len; [|done|done|lia].
  rewrite len_app. unfold Py.len. simpl. lia.
Qed.

(** X7. The lines of an ordered list are an empty line and then the lines
    of the body, in which the marker of every line that begins with one is
    rewritten and every other line is unchanged; no line of the output
    begins with the marker of an unordered item. *)
Theorem ordered_list_lines (body : string) :
  Py.split LF (RstRenderer.list body true)
    = "" :: (Spec.rewrite_marker <$> Py.split LF body)
  ∧ Forall (fun line => Py.startswith line "- " = false)
      (Py.split LF (RstRenderer.list body true))
  ∧ length (Py.split LF (RstRenderer.list body true))
    = S (length (Py.split LF body)).
Proof.
  assert (Py.split LF (RstRenderer.list body true)
          = "" :: (Spec.rewrite_marker <$> Py.split LF body)) as Hlines.
  { unfold RstRenderer.list.
    rewrite (replace_marker_lines (S (Py.len body)) (nl +:+ body) ""
               (Py.split LF body)).
    - apply split_join; [done|]. constructor; [done|].
      apply Forall_fmap. eapply Forall_impl; [apply split_no_sep|].
      intros line Hline. by apply rewrite_marker_no_newline.
    - rewrite len_app. unfold Py.len. simpl. lia.
    - done. }
  rewrite Hlines. split_and!; [done| |].
  - constructor; [done|]. apply Forall_fmap, Forall_forall.
    intros line _. apply rewrite_marker_no_marker.
  - simpl. by rewrite length_fmap.
Qed.

(** ** Links *)

(** X8. An autolink to an e-mail address is always an external hyperlink
    to the mailto target, labelled with the address: it is never rendered
    as a reference role, even when the address begins with the reference
    scheme. *)
Theorem autolink_email (link : string) :
  RstRenderer.autolink link true
  = "`" +:+ link +:+ " <mailto:" +:+ link +:+ ">`__".
Proof.
  unfold RstRenderer.autolink.
  assert (Py.startswith ("mailto:" +:+ link) "ref:" = false) as ->
    by reflexivity.
  by rewrite !app_assoc.
Qed.

Lemma app_inv_tail (s s' t : string) : s +:+ t = s' +:+ t -> s = s'.
Proof.
  revert s'. induction s as [|a s IH]; intros [|c s'] Heq; [done| | |].
  - apply (f_equal Py.len) in Heq. rewrite !len_app in Heq.
    unfold Py.len in Heq. simpl in Heq. lia.
  - apply (f_equal Py.len) in Heq. rewrite !len_app in Heq.
    unfold Py.len in Heq. simpl in Heq. lia.
  - rewrite !app_cons in Heq. injection Heq as -> Heq. f_equal. by apply IH.
Qed.

(** X9. A link is never rendered as an external hyperlink whose
    destination begins with the script scheme, whatever its target. *)
Theorem link_never_script_destination (link : string)
    (title : option string) (text destination : string) :
  RstRenderer.link link title text
    = "`" +:+ text +:+ " <" +:+ destination +:+ ">`__" ->
  Py.startswith destination "javascript:" = false.
Proof.
  unfold RstRenderer.link.
  destruct (Py.startswith link "javascript:") eqn:Hjs.
  - change (Py.startswith "" "ref:") with false. cbv iota.
    intros Heq. do 3 apply (inj (String.app _)) in Heq.
    apply (app_inv_tail "" destination) in Heq. by subst.
  - destruct (Py.startswith link "ref:"); [done|].
    intros Heq. do 3 apply (inj (String.app _)) in Heq.
    apply app_inv_tail in Heq. by subst.
Qed.

Lemma link_never_script_destination_witness :
  Py.startswith "" "javascript:" = false
  ∧ Py.startswith "http://example.com" "javascript:" = false.
Proof.
  split.
  - exact (link_never_script_destination "javascript:alert(1)" None "x" ""
             eq_refl).
  - exact (link_never_script_destination "http://example.com" None "x"
             "http://example.com" eq_refl).
Defined.

(** ** Block math, from the lexer to the renderer *)

Lemma drop_app_le (n : nat) (s t : string) :
  n <= Py.len s -> Py.drop n (s +:+ t) = Py.drop n s +:+ t.
Proof.
  revert s. induction n as [|n IH]; intros [|c s] Hn; try done.
  - unfold Py.len in Hn. simpl in Hn. lia.
  - rewrite app_cons. simpl. apply IH. unfold Py.len in *. simpl in Hn. lia.
Qed.

Lemma drop_all (n : nat) (s : string) : Py.len s <= n -> Py.drop n s = "".
Proof.
  revert s. induction n as [|n IH]; intros [|c s] Hn; try done.
  - unfold Py.len in Hn. simpl in Hn. lia.
  - simpl. apply IH. unfold Py.len in *. simpl in Hn. lia.
Qed.

Lemma find_None_iff (s sub : string) :
  Py.find s sub = None ↔ ∀ j, Py.startswith (Py.drop j s) sub = false.
Proof.
  split; [intros Hf j; by apply find_None|].
  induction s as [|c s IH]; intros Hall; simpl;
    pose proof (Hall 0) as Hhere; simpl in Hhere; rewrite Hhere; [done|].
  rewrite IH; [done|]. intros j. apply (Hall (S j)).
Qed.

(** What lies before the first occurrence holds no occurrence, also none
    that would end one character further. *)
Lemma find_before (s : string) (i : nat) :
  Py.find s "$$" = Some i -> Py.find (Py.take i s +:+ "$") "$$" = None.
Proof.
  intros Hfind. apply find_None_iff. intros j.
  destruct (find_Some _ _ _ Hfind) as [Hhit Hfit].
  change (Py.len "$$") with 2 in Hfit.
  assert (Py.len (Py.take i s) = i) as Hlen by (apply len_take; lia).
  destruct (decide (j < i)) as [Hj|Hj].
  - destruct (Py.startswith (Py.drop j (Py.take i s +:+ "$")) "$$") eqn:Hocc;
      [|done].
    rewrite <- (find_first _ _ _ j Hfind Hj). symmetry.
    assert (s = (Py.take i s +:+ "$")
                +:+ ("$" +:+ Py.drop 2 (Py.drop i s))) as Hs.
    { apply startswith_split in Hhit.
      rewrite <- (take_drop i s) at 1. rewrite Hhit at 1.
      by rewrite !app_assoc. }
    replace (Py.drop j s)
      with (Py.drop j (Py.take i s +:+ "$")
            +:+ ("$" +:+ Py.drop 2 (Py.drop i s))).
    + by apply startswith_app_l.
    + rewrite <- drop_app_le by (rewrite len_app, Hlen; lia).
      by rewrite <- Hs.
  - destruct (Py.startswith (Py.drop j (Py.take i s +:+ "$")) "$$") eqn:Hocc;
      [|done].
    apply startswith_len in Hocc. rewrite len_drop, len_app, Hlen in Hocc.
    change (Py.len "$$") with 2 in Hocc. unfold Py.len in Hocc.
    simpl in Hocc. lia.
Qed.

(** X10. Whenever the block math rule matches, the text is the opening
    delimiter, the interior, the closing delimiter and a rest; the match
    spans the two delimiters and the interior, and group 1 is the interior.
    The interior holds no delimiter and does not end with a dollar sign. *)
Theorem block_math_span (text : string) (m : re.Match) :
  re.match_ BlockLexer.block_math text = Some m ->
  ∃ interior rest,
    text = "$$" +:+ interior +:+ "$$" +:+ rest
    ∧ re.group0 m = "$$" +:+ interior +:+ "$$"
    ∧ re.group1 m = Some interior
    ∧ Py.find (interior +:+ "$") "$$" = None.
Proof.
  rewrite block_math_match.
  destruct (Py.startswith text "$$") eqn:Hopen; [|done].
  destruct (Py.find (Py.drop 2 text) "$$") as [i|] eqn:Hfind; [|done].
  intros [= <-]. cbn [re.group0 re.group1].
  destruct (find_Some _ _ _ Hfind) as [Hclose Hfit].
  change (Py.len "$$") with 2 in Hfit.
  apply startswith_split in Hopen, Hclose.
  change (Py.len "$$") with 2 in *.
  set (body := Py.drop 2 text) in *.
  exists (Py.take i body), (Py.drop 2 (Py.drop i body)).
  assert (text = "$$" +:+ Py.take i body +:+ "$$"
                 +:+ Py.drop 2 (Py.drop i body)) as Htext.
  { rewrite Hopen at 1. f_equal. rewrite <- Hclose. by rewrite take_drop. }
  split_and!; [done| |done|by apply find_before].
  rewrite Htext at 1.
  assert (i + 4 = Py.len ("$$" +:+ Py.take i body +:+ "$$")) as ->.
  { rewrite !len_app, len_take by lia. unfold Py.len. simpl. lia. }
  rewrite <- (take_app ("$$" +:+ Py.take i body +:+ "$$")
                (Py.drop 2 (Py.drop i body))) at 2.
  by rewrite !app_assoc.
Qed.

Lemma block_math_span_witness :
  ∃ interior rest,
    "$$a$$ and $$b$$" = "$$" +:+ interior +:+ "$$" +:+ rest
    ∧ Py.find (interior +:+ "$") "$$" = None.
Proof.
  destruct (block_math_span "$$a$$ and $$b$$"
              {| re.group0 := "$$a$$"; re.group1 := Some "a" |} eq_refl)
    as (interior & rest & Htext & _ & _ & Hnone).
  by exists interior, rest.
Defined.

(** X11. A block that the math rule matches goes through the lexer and
    the driver to the renderer as a math directive of its interior: the
    lexer appends one token, and [output_block_math] renders that token as
    the directive line, an empty line and the indented interior.  A token
    without a text raises [KeyError]. *)
Theorem block_math_pipeline `{Mistune} `{Dedent} (body rest : string) :
  Py.find (body +:+ "$$" +:+ rest) "$$" = Some (Py.len body) ->
  (∃ self m,
     BlockLexer.manipulate BlockLexer.__init__
       (BlockLexer.default_rules BlockLexer.__init__)
       ("$$" +:+ body +:+ "$$" +:+ rest)
     = Return (Some (self, "block_math", m))
     ∧ re.group0 m = "$$" +:+ body +:+ "$$"
     ∧ ∃ token,
         BlockLexer.tokens self = [token]
         ∧ Markdown.output_block_math token
           = Return (".. math:: " +:+ nl +:+ nl
                     +:+ RstRenderer._indented body +:+ nl +:+ nl)
         ∧ Markdown.output Markdown.output_block_math (BlockLexer.tokens self)
           = Return (RstRenderer.block_math body))
  ∧ Markdown.output_block_math (<["type" := VStr "block_math"]> ∅)
    = Raise (KeyError ["text"]).
Proof.
  intros Hfind. split; [|reflexivity].
  set (text := "$$" +:+ body +:+ "$$" +:+ rest).
  assert (re.match_ BlockLexer.block_math text
          = Some {| re.group0 := "$$" +:+ body +:+ "$$";
                    re.group1 := Some body |}) as Hm.
  { unfold text. rewrite block_math_match, (startswith_app _ "$$").
    assert (Py.drop 2 ("$$" +:+ body +:+ "$$" +:+ rest)
            = body +:+ "$$" +:+ rest) as -> by reflexivity.
    rewrite Hfind, take_app. do 2 f_equal.
    transitivity (Py.take (Py.len ("$$" +:+ body +:+ "$$"))
                    (("$$" +:+ body +:+ "$$") +:+ rest)).
    - f_equal; [|by rewrite !app_assoc].
      rewrite !len_app. unfold Py.len. simpl. lia.
    - apply take_app. }
  eexists _, _. split_and!.
  - cbn [BlockLexer.default_rules BlockLexer.__init__ BlockLexer.enable_math
         BlockLexer.manipulate BlockLexer.rules].
    rewrite lookup_insert_eq, Hm. unfold BlockLexer.parse_.
    by rewrite decide_True.
  - done.
  - eexists. split_and!; [reflexivity| |].
    + unfold Markdown.output_block_math.
      rewrite lookup_insert_ne, lookup_insert_eq by done.
      unfold BlockLexer.group1_value, RstRenderer.block_math,
        RstRenderer._directive. simpl. by rewrite !app_assoc.
    + unfold Markdown.output. simpl.
      unfold Markdown.output_block_math.
      rewrite lookup_insert_ne, lookup_insert_eq by done. done.
Qed.

Lemma block_math_pipeline_witness :
  ∃ self m,
    @BlockLexer.manipulate Sample.mistune (@BlockLexer.__init__ Sample.mistune)
      (BlockLexer.default_rules (@BlockLexer.__init__ Sample.mistune))
      ("$$" +:+ "x^2" +:+ "$$" +:+ "")
    = Return (Some (self, "block_math", m))
    ∧ re.group0 m = "$$" +:+ "x^2" +:+ "$$".
Proof.
  destruct (@block_math_pipeline Sample.mistune cpython_dedent "x^2" ""
              eq_refl) as [(self & m & Hstep & Hgroup & _) _].
  by exists self, m.
Defined.

(** X12. [enable_math] of the block lexer may be called again without
    effect: the math rule stays the first default rule and is not put in
    twice.  It changes no other rule of the grammar and no token. *)
Theorem block_enable_math_once `{Mistune} (self : BlockLexer.t) :
  BlockLexer.enable_math (BlockLexer.enable_math self)
    = BlockLexer.enable_math self
  ∧ (∀ key, key ≠ "block_math" ->
       BlockLexer.rules (BlockLexer.enable_math self) !! key
       = BlockLexer.rules self !! key)
  ∧ BlockLexer.tokens (BlockLexer.enable_math self) = BlockLexer.tokens self.
Proof.
  split_and!.
  - unfold BlockLexer.enable_math. simpl. by rewrite insert_insert_eq.
  - intros key Hkey. unfold BlockLexer.enable_math. simpl.
    by rewrite lookup_insert_ne.
  - done.
Qed.

Lemma block_enable_math_once_witness :
  BlockLexer.rules (@BlockLexer.__init__ Sample.mistune) !! "newline"
  = Some (re.match_ Sample.newline).
Proof.
  destruct (@block_enable_math_once Sample.mistune
              {| BlockLexer.rules := @BlockGrammar Sample.mistune;
                 BlockLexer.default_rules :=
                   @BlockLexer_default_rules Sample.mistune;
                 BlockLexer.tokens := [] |}) as (_ & Hother & _).
  exact (eq_trans (Hother "newline" ltac:(discriminate)) eq_refl).
Defined.

(** ** Inline math and text, at one step of the lexer *)

Lemma closing_from_app (b rest : string) :
  Py.contains "$" b = false -> Py.contains LF b = false ->
  Spec.closing_from (b +:+ "$" +:+ rest) = Some (Py.len b).
Proof.
  induction b as [|a b IH]; [done|]. rewrite app_cons. simpl.
  repeat case_decide; try done. intros Hd Hn. by rewrite IH.
Qed.

Lemma closing_from_take (s : string) (i : nat) :
  Spec.closing_from s = Some i ->
  Py.contains LF (Py.take i s) = false
  ∧ Py.contains "$" (Py.take i s) = false.
Proof.
  revert i. induction s as [|a s IH]; intros i; simpl; [done|].
  case_decide; [by intros [= <-]|]. case_decide; [done|].
  destruct (Spec.closing_from s) as [j|]; [|done]. intros [= <-].
  destruct (IH j eq_refl) as [Hn Hd]. simpl.
  by rewrite !decide_False.
Qed.

Lemma math_match_other (text : string) :
  Py.startswith text "$" = false -> re.match_ InlineLexer.math text = None.
Proof.
  unfold re.match_, InlineLexer.math. cbn [re.run].
  rewrite decide_True by done.
  destruct text as [|a s]; [done|]. simpl.
  case_decide; [done|]. by rewrite decide_False by congruence.
Qed.

(** The math rule on a text in which the interior is delimited. *)
Lemma math_match_delimited (c : ascii) (b rest : string) :
  c ≠ LF -> Py.contains "$" b = false -> Py.contains LF b = false ->
  re.match_ InlineLexer.math ("$" +:+ String c b +:+ "$" +:+ rest)
  = Some {| re.group0 := "$" +:+ String c b +:+ "$";
            re.group1 := Some (String c b) |}.
Proof.
  intros Hc Hd Hn. rewrite math_match.
  rewrite app_cons. cbn [Spec.closing_dollar].
  rewrite decide_False, closing_from_app by done. cbn [fmap option_fmap option_map].
  do 2 f_equal.
  - transitivity (Py.take (Py.len ("$" +:+ String c b +:+ "$"))
                    (("$" +:+ String c b +:+ "$") +:+ rest)).
    + f_equal; [|by rewrite !app_assoc].
      rewrite !len_app. unfold Py.len. simpl. lia.
    + apply take_app.
  - f_equal. apply (take_app (String c b)).
Qed.

(** X13. Inline math at the start of the text is taken by the math rule
    before any rule of mistune is tried: when the interior does not begin
    with a newline and holds neither a newline nor, after its first
    character, a dollar sign, one step of the lexer renders the math role
    of the interior and leaves what follows the closing dollar sign. *)
Theorem inline_math_step `{Mistune} (renderer : RstRenderer.t) (c : ascii)
    (b rest : string) :
  c ≠ LF -> Py.contains "$" b = false -> Py.contains LF b = false ->
  InlineLexer.step (InlineLexer.__init__ renderer)
    ("$" +:+ String c b +:+ "$" +:+ rest)
  = Return (":math:`" +:+ String c b +:+ "`", rest).
Proof.
  intros Hc Hd Hn. unfold InlineLexer.step.
  cbn [InlineLexer.default_rules InlineLexer.__init__
       InlineLexer.enable_math InlineLexer.manipulate InlineLexer.rules].
  rewrite lookup_insert_eq, math_match_delimited by done.
  unfold InlineLexer.output_. rewrite decide_True by done.
  cbn [mbind result_bind re.group0]. do 2 f_equal.
  rewrite <- (drop_app ("$" +:+ String c b +:+ "$") rest) at 2.
  by rewrite !app_assoc.
Qed.

Lemma inline_math_step_witness :
  @InlineLexer.step Sample.mistune
    (@InlineLexer.__init__ Sample.mistune (RstRenderer.__init__ ∅))
    ("$" +:+ "x^2" +:+ "$" +:+ " is even")
  = Return (":math:`x^2`", " is even").
Proof.
  apply (@inline_math_step Sample.mistune (RstRenderer.__init__ ∅)
           "x" "^2" " is even"); [discriminate | reflexivity | reflexivity].
Defined.

(** X14. Whenever the inline math rule matches, the text is a dollar sign,
    the interior, a dollar sign and a rest; the match spans the two dollar
    signs and the interior, and group 1 is the interior.  The interior is
    not empty, holds no newline, and holds no dollar sign after its first
    character. *)
Theorem math_interior (text : string) (m : re.Match) :
  re.match_ InlineLexer.math text = Some m ->
  ∃ interior rest,
    text = "$" +:+ interior +:+ "$" +:+ rest
    ∧ re.group0 m = "$" +:+ interior +:+ "$"
    ∧ re.group1 m = Some interior
    ∧ interior ≠ ""
    ∧ Py.contains LF interior = false
    ∧ Py.contains "$" (Py.drop 1 interior) = false.
Proof.
  destruct (Py.startswith text "$") eqn:Hopen;
    [|by rewrite math_match_other].
  apply startswith_split in Hopen. change (Py.len "$") with 1 in Hopen.
  set (r := Py.drop 1 text) in *. rewrite Hopen, math_match.
  destruct r as [|c s]; [done|]. cbn [Spec.closing_dollar].
  case_decide as Hc; [done|].
  destruct (Spec.closing_from s) as [j|] eqn:Hclose; [|done].
  cbn [fmap option_fmap option_map]. intros [= <-].
  cbn [re.group0 re.group1].
  pose proof (closing_from_le _ _ Hclose) as Hj.
  pose proof (closing_from_dollar _ _ Hclose) as Hdollar.
  destruct (closing_from_take _ _ Hclose) as [Hn Hd].
  apply startswith_split in Hdollar. change (Py.len "$") with 1 in Hdollar.
  exists (String c (Py.take j s)), (Py.drop 1 (Py.drop j s)).
  assert ("$" +:+ String c s
          = "$" +:+ String c (Py.take j s) +:+ "$"
            +:+ Py.drop 1 (Py.drop j s)) as Htext.
  { f_equal. rewrite app_cons. f_equal. rewrite <- Hdollar.
    by rewrite take_drop. }
  split_and!; [done| |done|done| |done].
  - change (String "$" (Py.take (j + 2) ("" +:+ String c s)))
      with (Py.take (S j + 2) ("$" +:+ String c s)).
    rewrite Htext.
    transitivity
      (Py.take (Py.len ("$" +:+ String c (Py.take j s) +:+ "$"))
         (("$" +:+ String c (Py.take j s) +:+ "$")
          +:+ Py.drop 1 (Py.drop j s))).
    + f_equal; [|by rewrite !app_assoc].
      rewrite !len_app.
      change (Py.len (String c (Py.take j s)))
        with (S (Py.len (Py.take j s))).
      rewrite len_take by lia. unfold Py.len. simpl. lia.
    + apply take_app.
  - simpl. by rewrite decide_False.
Qed.

Lemma math_interior_witness :
  ∃ interior rest,
    "$x^2$ is even" = "$" +:+ interior +:+ "$" +:+ rest
    ∧ Py.contains LF interior = false.
Proof.
  destruct (math_interior "$x^2$ is even"
              {| re.group0 := "$x^2$"; re.group1 := Some "x^2" |} eq_refl)
    as (interior & rest & Htext & _ & _ & _ & Hn & _).
  by exists interior, rest.
Defined.

Lemma lazy_many_first (p : ascii -> bool) (s : string)
    (k : string -> option re.state) (st : re.state) :
  re.lazy_many p 0 s k = Some st ->
  ∃ j, j <= Py.len s ∧ k (Py.drop j s) = Some st
       ∧ ∀ i, i < j -> k (Py.drop i s) = None.
Proof.
  induction s as [|c s IH]; simpl.
  - destruct (k "") eqn:Hk; [|done]. intros [= <-].
    exists 0. split_and!; [done..|]. intros i Hi. lia.
  - destruct (k (String c s)) eqn:Hk.
    + intros [= <-]. exists 0. split_and!; [lia|done|]. intros i Hi. lia.
    + destruct (p c); [|done]. intros Hrun.
      destruct (IH Hrun) as (j & Hj & Hst & Hfirst).
      exists (S j). split_and!; [unfold Py.len in *; simpl; lia|done|].
      intros [|i] Hi; [done|]. apply Hfirst. lia.
Qed.

(** A lazy run that a lookahead ends goes no further than the first place
    where the lookahead holds. *)
Lemma lazy_until_first (ahead : re.regex) (c : ascii) (s : string)
    (m : re.Match) :
  re.match_
    (re.Seq re.Bos (re.Seq (re.Lazy 1 InlineLexer.any) (re.Look ahead)))
    (String c s) = Some m ->
  ∃ j, j <= Py.len s ∧ re.group0 m = String c (Py.take j s)
       ∧ ∀ i, i < j ->
           re.run (String c s) ahead (Py.drop i s) None
             (fun s' g' => Some (s', g')) = None.
Proof.
  unfold re.match_. cbn [re.run].
  rewrite decide_True by done. cbn [re.lazy_many]. rewrite any_true.
  match goal with
  | |- context [re.lazy_many _ 0 s ?k] =>
      destruct (re.lazy_many InlineLexer.any 0 s k) as [[s1 g1]|] eqn:Hrun;
        [|done]
  end.
  apply lazy_many_first in Hrun as (j & Hj & Hst & Hfirst).
  intros [= <-]. cbn [re.group0]. exists j. split_and!; [done| |].
  - destruct (re.run (String c s) ahead (Py.drop j s) None
                (fun s' g' => Some (s', g'))) as [[s2 g2]|]; [|done].
    injection Hst as <- _. rewrite len_drop.
    unfold Py.len in *. simpl String.length.
    replace (S (String.length s) - (String.length s - j)) with (S j) by lia.
    done.
  - intros i Hi. specialize (Hfirst i Hi).
    by destruct (re.run (String c s) ahead (Py.drop i s) None
                   (fun s' g' => Some (s', g'))) as [[s2 g2]|].
Qed.

Lemma contains_take (P : ascii -> Prop) (j : nat) (s : string) :
  (∀ i a r, i < j -> Py.drop i s = String a r -> P a) ->
  ∀ a, Py.contains a (Py.take j s) = true -> P a.
Proof.
  revert s. induction j as [|j IH]; intros [|b s] Hall a; try done.
  simpl. case_decide.
  - subst b. intros _. apply (Hall 0 a s); [lia|done].
  - apply IH. intros i a' r Hi Hdrop. apply (Hall (S i) a' r); [lia|done].
Qed.

(** X15. The text rule matches every text but the empty one.  Its match is
    a prefix of the text that is not empty, so a step of the lexer that
    comes to the text rule takes at least one character, and it has no
    group. *)
Theorem text_rule_total (text : string) :
  (re.match_ InlineLexer.text text = None ↔ text = "")
  ∧ (∀ m, re.match_ InlineLexer.text text = Some m ->
       re.group0 m ≠ "" ∧ re.group1 m = None
       ∧ text = re.group0 m +:+ Py.drop (Py.len (re.group0 m)) text).
Proof.
  destruct text as [|c s].
  - split; [done|]. intros m Hm. by vm_compute in Hm.
  - destruct (text_match c s) as (j & Hj & Hm). rewrite Hm. split.
    + split; intros; done.
    + intros m' [= <-]. cbn [re.group0 re.group1]. split_and!; [done..|].
      change (Py.len (String c (Py.take j s))) with (S (Py.len (Py.take j s))).
      rewrite len_take by done. simpl. rewrite app_cons.
      by rewrite take_drop.
Qed.

(** X16. The match of the text rule stops before a dollar sign: after its
    first character it holds no dollar sign, and none of the other
    characters at which plain text ends, so the math rule is tried at
    every dollar sign that is not the first character of a text match. *)
Theorem text_rule_stops (text : string) (m : re.Match) :
  re.match_ InlineLexer.text text = Some m ->
  ∃ c body,
    re.group0 m = String c body
    ∧ (∀ a, Py.contains a body = true -> InlineLexer.stop a = false)
    ∧ Py.contains "$" body = false.
Proof.
  destruct text as [|c s]; [intros Hm; by vm_compute in Hm|].
  unfold InlineLexer.text. intros Hm.
  apply lazy_until_first in Hm as (j & Hj & Hgroup & Hfirst).
  exists c, (Py.take j s).
  assert (∀ a, Py.contains a (Py.take j s) = true
               -> InlineLexer.stop a = false) as Hstop.
  { apply contains_take. intros i a r Hi Hdrop.
    specialize (Hfirst i Hi). rewrite Hdrop in Hfirst.
    cbn [re.run] in Hfirst.
    by destruct (InlineLexer.stop a). }
  split_and!; [done..|].
  destruct (Py.contains "$" (Py.take j s)) eqn:Hd; [|done].
  by specialize (Hstop _ Hd).
Qed.

Lemma text_rule_stops_witness :
  ∃ c body,
    String c body = "so "
    ∧ Py.contains "$" body = false.
Proof.
  destruct (text_rule_stops "so $x^2$ is even"
              {| re.group0 := "so "; re.group1 := None |} eq_refl)
    as (c & body & Hgroup & _ & Hd).
  by exists c, body.
Defined.

(** X17. [enable_math] of the inline lexer may be called again without
    effect.  It sets the math rule and replaces the text rule, changes no
    other rule of the grammar, keeps the renderer, and puts the math rule
    first. *)
Theorem inline_enable_math_once `{Mistune} (self : InlineLexer.t) :
  InlineLexer.enable_math (InlineLexer.enable_math self)
    = InlineLexer.enable_math self
  ∧ (∀ key, key ≠ "math" -> key ≠ "text" ->
       InlineLexer.rules (InlineLexer.enable_math self) !! key
       = InlineLexer.rules self !! key)
  ∧ InlineLexer.rules (InlineLexer.enable_math self) !! "math"
    = Some (re.match_ InlineLexer.math)
  ∧ InlineLexer.rules (InlineLexer.enable_math self) !! "text"
    = Some (re.match_ InlineLexer.text)
  ∧ InlineLexer.renderer (InlineLexer.enable_math self)
    = InlineLexer.renderer self
  ∧ InlineLexer.default_rules (InlineLexer.enable_math self)
    = "math" :: InlineLexer_default_rules.
Proof.
  split_and!; try done.
  - unfold InlineLexer.enable_math. simpl. f_equal.
    apply map_eq. intros key.
    destruct (decide (key = "math")) as [->|Hm];
      [by rewrite !lookup_insert_eq|].
    rewrite !(lookup_insert_ne _ "math") by done.
    destruct (decide (key = "text")) as [->|Ht];
      [by rewrite !lookup_insert_eq|].
    by rewrite !lookup_insert_ne by done.
  - intros key Hm Ht. unfold InlineLexer.enable_math. simpl.
    by rewrite !lookup_insert_ne.
  - unfold InlineLexer.enable_math. simpl. apply lookup_insert_eq.
  - unfold InlineLexer.enable_math. simpl.
    by rewrite lookup_insert_ne, lookup_insert_eq.
Qed.

Lemma inline_enable_math_once_witness :
  InlineLexer.rules
    (@InlineLexer.__init__ Sample.mistune (RstRenderer.__init__ ∅))
    !! "escape"
  = Some (re.match_ Sample.escape).
Proof.
  destruct (@inline_enable_math_once Sample.mistune
              {| InlineLexer.renderer := RstRenderer.__init__ ∅;
                 InlineLexer.rules := @InlineGrammar Sample.mistune;
                 InlineLexer.default_rules :=
                   "math" :: @InlineLexer_default_rules Sample.mistune |})
    as (_ & Hother & _).
  exact (eq_trans (Hother "escape" ltac:(discriminate) ltac:(discriminate))
           eq_refl).
Defined.

(** X18. An autolink to a reference target is a reference role to the
    target without the scheme, and its label is the whole target, the
    scheme included: unlike a link, an autolink has no text of its own. *)
Theorem autolink_reference_label (label : string) :
  RstRenderer.autolink ("ref:" +:+ label) false
    = ":ref:`ref:" +:+ label +:+ " <" +:+ label +:+ ">`"
  ∧ (∀ text, text ≠ "ref:" +:+ label ->
       RstRenderer.autolink ("ref:" +:+ label) false
       ≠ RstRenderer.link ("ref:" +:+ label) None text).
Proof.
  assert (RstRenderer.autolink ("ref:" +:+ label) false
          = ":ref:`ref:" +:+ label +:+ " <" +:+ label +:+ ">`") as Hauto.
  { unfold RstRenderer.autolink.
    rewrite (startswith_app label "ref:"). reflexivity. }
  split; [done|]. intros text Hne. rewrite Hauto.
  unfold RstRenderer.link.
  assert (Py.startswith ("ref:" +:+ label) "javascript:" = false) as ->
    by reflexivity.
  rewrite (startswith_app label "ref:").
  assert (Py.drop 4 ("ref:" +:+ label) = label) as -> by reflexivity.
  change (":ref:`ref:" +:+ label +:+ " <" +:+ label +:+ ">`")
    with (":ref:`" +:+ ("ref:" +:+ label) +:+ " <" +:+ label +:+ ">`").
  intros Heq. apply (inj (String.app _)) in Heq.
  apply app_inv_tail in Heq. done.
Qed.

Lemma autolink_reference_label_witness :
  RstRenderer.autolink ("ref:" +:+ "intro") false
  ≠ RstRenderer.link ("ref:" +:+ "intro") None "Introduction".
Proof.
  exact (proj2 (autolink_reference_label "intro") "Introduction"
           ltac:(discriminate)).
Defined.

Lemma block_code_trailing_newlines_witness :
  @RstRenderer.block_code cpython_dedent ("x = 1" +:+ Py.mul nl 3) None
  = @RstRenderer.block_code cpython_dedent "x = 1" None.
Proof.
  exact (proj1 (@block_code_trailing_newlines cpython_dedent "x = 1" None 3)).
Defined.

Lemma text_rule_total_witness :
  "so $x$" = "so " +:+ Py.drop (Py.len "so ") "so $x$".
Proof.
  exact (proj2 (proj2 (proj2 (text_rule_total "so $x$")
                         {| re.group0 := "so "; re.group1 := None |}
                         eq_refl))).
Defined.

(** * The driver *)

(** ** Tables and footnotes *)

Section DriverFacts.
Context `{Dedent} `{Fill}.
Variable renderer : RstRenderer.t.
Variable inline : bool -> string -> outcome string.
Variable inline_html : bool -> string -> outcome string.

Local Abbreviation tok := (Driver.tok renderer inline inline_html).
Local Abbreviation until := (Driver.until renderer inline inline_html).
Local Abbreviation output_from :=
  (Driver.output_from renderer inline inline_html).
Local Abbreviation parse := (Driver.parse renderer inline inline_html).

Lemma passed_refl (st : Driver.state) : Driver.passed st st.
Proof. exists []. split_and!; [done|constructor|]. intros ?. by split. Qed.

Lemma passed_trans (st1 st2 st3 : Driver.state) :
  Driver.passed st1 st2 -> Driver.passed st2 st3 -> Driver.passed st1 st3.
Proof.
  intros (p1 & Ht1 & Hn1 & Hf1) (p2 & Ht2 & Hn2 & Hf2).
  exists (p1 ++ p2). split_and!.
  - by rewrite Ht1, Ht2, (assoc_L (++)).
  - by apply Forall_app.
  - intros Hend. destruct (Hf2 Hend) as [Hmid Hp2].
    destruct (Hf1 Hmid) as [Hstart Hp1]. split; [done|]. by apply Forall_app.
Qed.

(** Popping a token that is neither a table nor the start of a footnote *)
Lemma passed_pop (st : Driver.state) (e : Driver.entry)
    (rest : list Driver.entry) :
  Driver.tokens st = e :: rest -> Driver.unsupported e = false ->
  Driver.passed st (Driver.popped st rest).
Proof.
  intros Ht Hu. exists [e]. split_and!; [done| |].
  - constructor; [|done]. by destruct e.
  - intros Hend. split; [done|]. by constructor.
Qed.

(** Popping a token that [tok] has rendered *)
Lemma passed_tok (st st' : Driver.state) (e : Driver.entry)
    (rest : list Driver.entry) :
  Driver.tokens st = e :: rest ->
  Driver.is_table e = false ->
  Driver.passed (Driver.popped st rest) st' ->
  (Driver.unsupported e = true -> Driver.footnotes st' ≠ []) ->
  Driver.passed st st'.
Proof.
  intros Ht Hn (popped & Hpt & Hpn & Hpf) Hu.
  exists (e :: popped). split_and!.
  - rewrite Ht. simpl in Hpt. by rewrite Hpt.
  - by constructor.
  - intros Hend. destruct (Hpf Hend) as [Hstart Hpop].
    split; [done|]. constructor; [|done].
    destruct (Driver.unsupported e); [|done]. by destruct Hu.
Qed.

Lemma merge_text_passed (text : string) (rest : list Driver.entry)
    (text' : string) (rest' : list Driver.entry) :
  Driver.merge_text text rest = Return (text', rest') ->
  ∃ popped,
    rest = popped ++ rest'
    ∧ Forall (fun e => Driver.unsupported e = false) popped.
Proof.
  revert text. induction rest as [|e rest IH]; intros text; simpl; [done|].
  destruct e; try (intros [= -> <-]; by exists []).
  intros Hm. destruct (IH _ Hm) as (popped & -> & Hp).
  eexists (_ :: popped). split; [done|]. by constructor.
Qed.

Lemma tok_text_passed (text : string) (st : Driver.state)
    (frag : string) (st' : Driver.state) :
  Driver.tok_text inline text st = Finished (Return (frag, st')) ->
  Driver.passed st st'.
Proof.
  unfold Driver.tok_text.
  destruct (Driver.merge_text text (Driver.tokens st)) as [[text' rest]|]
    eqn:Hm; simpl; [|done].
  destruct (inline (Driver.in_footnote st) text') as [[out|]|]; simpl;
    [|done..].
  intros [= <- <-]. apply merge_text_passed in Hm as (popped & Ht & Hp).
  exists popped. split_and!; [done| |].
  - eapply Forall_impl; [exact Hp|]. by intros [].
  - intros Hend. by split.
Qed.

(** [output_table] never returns: the first cell of the header, or the
    header row when there is no cell, raises. *)
Lemma output_table_raises (in_fn : bool) (header : list string)
    (align : list value) (cells : list (list string)) (frag : string) :
  Driver.output_table inline in_fn header align cells
  ≠ Finished (Return frag).
Proof.
  unfold Driver.output_table. destruct header as [|value header]; simpl.
  - done.
  - by destruct (inline in_fn value) as [[text|]|].
Qed.

Lemma until_S (fuel : nat) (merge : bool) (end_ body : string)
    (st : Driver.state) :
  until (S fuel) merge end_ body st
  = match Driver.tokens st with
    | [] => Finished (Raise Driver.none_type)
    | e :: rest =>
        if decide (Driver.type_of e = end_)
        then Finished (Return (body, Driver.popped st rest))
        else
          '(frag, st') ←
            match e with
            | Driver.Text text =>
                if merge
                then Driver.tok_text inline text (Driver.popped st rest)
                else tok fuel e (Driver.popped st rest)
            | _ => tok fuel e (Driver.popped st rest)
            end;
          until fuel merge end_ (body +:+ frag) st'
    end.
Proof. reflexivity. Qed.

(** A run of [tok], or of the loop up to an end token, that returns has
    passed over no table, and has recorded a footnote if it has passed
    over the start of one. *)
Lemma tok_until_passed (fuel : nat) :
  (∀ e st frag st',
     tok fuel e st = Finished (Return (frag, st')) ->
     Driver.is_table e = false
     ∧ Driver.passed st st'
     ∧ (Driver.unsupported e = true -> Driver.footnotes st' ≠ []))
  ∧ (∀ merge end_ body st body' st',
       end_ ≠ "table" -> end_ ≠ "footnote_start" ->
       until fuel merge end_ body st
         = Finished (Return (body', st')) ->
       Driver.passed st st').
Proof.
  induction fuel as [|fuel [IHtok IHuntil]]; [by split|]. split.
  - intros e st frag st'.
    destruct e; simpl; try done;
      try (intros [= <- <-]; split_and!; [done|apply passed_refl|done]).
    + unfold Driver.output_heading.
      destruct (inline (Driver.in_footnote st) text) as [[rendered|]|];
        simpl; try done.
      destruct (RstRenderer.header renderer rendered level (Some text));
        simpl; try done.
      intros [= <- <-]. split_and!; [done|apply passed_refl|done].
    + destruct (Driver.output_table inline (Driver.in_footnote st) header
                  align cells) as [[frag'|]|] eqn:Ht; simpl; try done.
      by apply output_table_raises in Ht.
    + destruct (until fuel false "block_quote_end"
                  RstRenderer.placeholder st) as [[[body st1]|]|] eqn:Hu;
        simpl; try done.
      intros [= <- <-]. split_and!; [done| |done].
      eapply IHuntil; [| |exact Hu]; done.
    + destruct (until fuel false "list_end"
                  RstRenderer.placeholder st) as [[[body st1]|]|] eqn:Hu;
        simpl; try done.
      intros [= <- <-]. split_and!; [done| |done].
      eapply IHuntil; [| |exact Hu]; done.
    + destruct (until fuel true "list_item_end"
                  RstRenderer.placeholder st) as [[[body st1]|]|] eqn:Hu;
        simpl; try done.
      intros [= <- <-]. split_and!; [done| |done].
      eapply IHuntil; [| |exact Hu]; done.
    + destruct (until fuel false "list_item_end"
                  RstRenderer.placeholder st) as [[[body st1]|]|] eqn:Hu;
        simpl; try done.
      intros [= <- <-]. split_and!; [done| |done].
      eapply IHuntil; [| |exact Hu]; done.
    + match goal with
      | |- context [Driver.until _ _ _ fuel false "footnote_end" _ ?st0] =>
          destruct (until fuel false "footnote_end"
                      RstRenderer.placeholder st0)
            as [[[body st1]|]|] eqn:Hu; simpl; try done
      end.
      intros [= <- <-]. split_and!; [done| |].
      * apply IHuntil in Hu as (popped & Ht & Hn & Hf); [|done..].
        exists popped. split_and!; [done..|].
        simpl. intros Hend. by destruct (Driver.footnotes st1).
      * intros _. simpl. by destruct (Driver.footnotes st1).
    + destruct (Driver.output_open_html renderer inline_html
                  (Driver.in_footnote st) tag extra text) as [[frag'|]|];
        simpl; try done.
      intros [= <- <-]. split_and!; [done|apply passed_refl|done].
    + unfold Driver.output_paragraph.
      destruct (inline (Driver.in_footnote st) text) as [[rendered|]|];
        simpl; try done.
      intros [= <- <-]. split_and!; [done|apply passed_refl|done].
    + destruct (Driver.tok_text inline text st) as [[[frag' st1]|]|] eqn:Ht;
        simpl; try done.
      intros [= <- <-]. split_and!; [done| |done]. by eapply tok_text_passed.
  - intros merge end_ body st body' st' Hend1 Hend2. rewrite until_S.
    destruct (Driver.tokens st) as [|e rest] eqn:Htokens; [done|].
    case_decide as Hend.
    { intros [= <- <-]. eapply passed_pop; [exact Htokens|].
      destruct e; try done; simpl in Hend; congruence. }
    assert (∀ frag st1,
      tok fuel e (Driver.popped st rest)
        = Finished (Return (frag, st1)) ->
      Driver.passed st st1) as Hvia_tok.
    { intros frag st1 Htok.
      destruct (IHtok _ _ _ _ Htok) as (Hn & Hp & Hu).
      by eapply passed_tok. }
    assert (∀ frag st1,
      tok fuel e (Driver.popped st rest)
        = Finished (Return (frag, st1)) ->
      until fuel merge end_ (body +:+ frag) st1
        = Finished (Return (body', st')) ->
      Driver.passed st st') as Hstep.
    { intros frag st1 Htok Hrest.
      eapply passed_trans; [by eapply Hvia_tok|by eapply IHuntil]. }
    destruct e;
      try (match goal with
           | |- context [tok fuel ?e0 ?st0] =>
               destruct (tok fuel e0 st0)
                 as [[[frag st1]|]|] eqn:Htok; simpl; try done;
               by apply (Hstep frag st1)
           end).
    destruct merge.
    + destruct (Driver.tok_text inline text (Driver.popped st rest))
        as [[[frag st1]|]|] eqn:Htext; simpl; try done.
      intros Hrest. eapply passed_trans; [|by eapply IHuntil].
      eapply passed_trans; [|by eapply tok_text_passed].
      by eapply passed_pop; [exact Htokens|].
    + destruct (tok fuel (Driver.Text text)
                  (Driver.popped st rest))
        as [[[frag st1]|]|] eqn:Htok; simpl; try done.
      by apply (Hstep frag st1).
Qed.

Lemma passed_length (st st' : Driver.state) :
  Driver.passed st st' ->
  length (Driver.tokens st') <= length (Driver.tokens st).
Proof. intros (popped & -> & _). rewrite length_app. lia. Qed.

Lemma output_from_passed (fuel : nat) (out : string) (st : Driver.state)
    (out' : string) (st' : Driver.state) :
  output_from fuel out st
    = Finished (Return (out', st')) ->
  Driver.passed st st' ∧ Driver.tokens st' = [].
Proof.
  revert out st. induction fuel as [|fuel IH]; intros out st; simpl.
  - destruct (Driver.tokens st) eqn:Ht; [|done].
    intros [= <- <-]. split; [apply passed_refl|done].
  - destruct (Driver.tokens st) as [|e rest] eqn:Ht.
    { intros [= <- <-]. split; [apply passed_refl|done]. }
    destruct (tok fuel e (Driver.popped st rest))
      as [[[frag st1]|]|] eqn:Htok; simpl; try done.
    intros Hrest. destruct (IH _ _ Hrest) as [Hp Hend]. split; [|done].
    destruct (proj1 (tok_until_passed fuel) _ _ _ _ Htok) as (Hn & Hp1 & Hu).
    eapply passed_trans; [|exact Hp]. by eapply passed_tok.
Qed.

(** No token stream with a table or the start of a footnote is rendered. *)
Lemma parse_unsupported (fuel : nat) (keys : gmap string Z)
    (toks : list Driver.entry) (e : Driver.entry) (output : string) :
  e ∈ toks -> Driver.unsupported e = true ->
  parse fuel keys toks ≠ Finished (Return output).
Proof.
  intros Hin Hun. unfold Driver.parse.
  match goal with
  | |- context [Driver.output_from _ _ _ fuel _ ?st0] =>
      destruct (output_from fuel
                  RstRenderer.placeholder st0)
        as [[[out st]|]|] eqn:Hout; simpl; try done
  end.
  destruct (Driver.footnotes st) as [|note notes] eqn:Hnotes.
  - apply output_from_passed in Hout as [(popped & Ht & Hn & Hf) Hend].
    simpl in Ht. rewrite Hend, (right_id_L [] (++)) in Ht. subst popped.
    destruct (Hf Hnotes) as [_ Hall].
    rewrite Forall_forall in Hall. specialize (Hall _ Hin). congruence.
  - match goal with
    | |- context [Driver.footnote_items ?b ?l] =>
        by destruct (Driver.footnote_items b l)
    end.
Qed.

Lemma bind_finishes {A B : Type} (m : outcome A) (f : A -> outcome B) :
  m ≠ OutOfFuel ->
  (∀ a, m = Finished (Return a) -> f a ≠ OutOfFuel) ->
  m ≫= f ≠ OutOfFuel.
Proof. destruct m as [[a|e]|]; simpl; [by auto|done..]. Qed.

Hypothesis inline_finishes : ∀ in_fn text, inline in_fn text ≠ OutOfFuel.
Hypothesis inline_html_finishes :
  ∀ in_fn text, inline_html in_fn text ≠ OutOfFuel.

Lemma tok_text_finishes (text : string) (st : Driver.state) :
  Driver.tok_text inline text st ≠ OutOfFuel.
Proof.
  unfold Driver.tok_text.
  destruct (Driver.merge_text text (Driver.tokens st)) as [[text' rest]|];
    simpl; [|done].
  apply bind_finishes; [apply inline_finishes|done].
Qed.

Lemma row_cells_finishes (in_fn header : bool) (align : list value) (i : nat)
    (cell : string) (values : list string) :
  Driver.row_cells inline in_fn header align i cell values ≠ OutOfFuel.
Proof.
  destruct values as [|value values]; simpl; [done|].
  apply bind_finishes; [apply inline_finishes|done].
Qed.

(** With two units of fuel for each token left and two more, [tok]
    finishes; the loops finish with one less. *)
Lemma tok_until_finish (fuel : nat) :
  (∀ e st,
     2 * length (Driver.tokens st) + 2 <= fuel ->
     tok fuel e st ≠ OutOfFuel)
  ∧ (∀ merge end_ body st,
       2 * length (Driver.tokens st) + 1 <= fuel ->
       until fuel merge end_ body st ≠ OutOfFuel).
Proof.
  induction fuel as [|fuel [IHtok IHuntil]]; [split; intros; lia|]. split.
  - intros e st Hfuel.
    destruct e; simpl; try done;
      try (apply bind_finishes; [|by intros []];
           first [apply IHuntil; simpl; lia | apply tok_text_finishes]).
    + apply bind_finishes; [|done]. unfold Driver.output_heading.
      apply bind_finishes; [apply inline_finishes|done].
    + apply bind_finishes; [|done]. unfold Driver.output_table.
      apply bind_finishes; [apply row_cells_finishes|done].
    + apply bind_finishes; [|done]. unfold Driver.output_open_html.
      apply bind_finishes; [|done].
      by destruct (_ && _); [apply inline_html_finishes|].
    + apply bind_finishes; [|done]. unfold Driver.output_paragraph.
      apply bind_finishes; [apply inline_finishes|done].
  - intros merge end_ body st Hfuel. rewrite until_S.
    destruct (Driver.tokens st) as [|e rest] eqn:Htokens; [done|].
    case_decide as Hend; [done|]. simpl in Hfuel.
    assert (∀ m : outcome (string * Driver.state),
      m ≠ OutOfFuel ->
      (∀ frag st1, m = Finished (Return (frag, st1)) ->
                   Driver.passed (Driver.popped st rest) st1) ->
      m ≫= (λ '(frag, st1),
              until fuel merge end_ (body +:+ frag) st1)
      ≠ OutOfFuel) as Hloop.
    { intros m Hm Hp. apply bind_finishes; [done|]. intros [frag st1] ->.
      apply IHuntil. specialize (Hp _ _ eq_refl).
      apply passed_length in Hp. simpl in Hp. lia. }
    assert (∀ e0 frag st1,
      tok fuel e0 (Driver.popped st rest)
        = Finished (Return (frag, st1)) ->
      Driver.passed (Driver.popped st rest) st1) as Hp_tok.
    { intros e0 frag st1 Htok.
      by destruct (proj1 (tok_until_passed fuel) _ _ _ _ Htok) as (_ & ? & _). }
    destruct e;
      try (apply Hloop; [apply IHtok; simpl; lia|by apply Hp_tok]).
    destruct merge.
    + apply Hloop; [apply tok_text_finishes|].
      intros frag st1. apply tok_text_passed.
    + apply Hloop; [apply IHtok; simpl; lia|by apply Hp_tok].
Qed.

Lemma output_from_finishes (fuel : nat) (out : string) (st : Driver.state) :
  2 * length (Driver.tokens st) < fuel ->
  output_from fuel out st ≠ OutOfFuel.
Proof.
  revert out st. induction fuel as [|fuel IH]; intros out st Hfuel; [lia|].
  - simpl. destruct (Driver.tokens st) as [|e rest] eqn:Ht; [done|].
    simpl in Hfuel. apply bind_finishes.
    + apply (proj1 (tok_until_finish fuel)). simpl. lia.
    + intros [frag st1] Htok. apply IH.
      destruct (proj1 (tok_until_passed fuel) _ _ _ _ Htok) as (_ & Hp & _).
      apply passed_length in Hp. simpl in Hp. lia.
Qed.

Lemma parse_finishes (fuel : nat) (keys : gmap string Z)
    (toks : list Driver.entry) :
  2 * length toks < fuel ->
  parse fuel keys toks ≠ OutOfFuel.
Proof.
  intros Hfuel. unfold Driver.parse. apply bind_finishes.
  - by apply output_from_finishes.
  - intros [out st] _. destruct (Driver.footnotes st); [done|].
    match goal with
    | |- context [Driver.footnote_items ?b ?l] =>
        by destruct (Driver.footnote_items b l)
    end.
Qed.

End DriverFacts.

(** * The loop of the inline lexer *)

Section InlineLoop.
Context `{Mistune}.

Lemma len_rstrip (c : ascii) (s : string) : Py.len (Py.rstrip c s) <= Py.len s.
Proof.
  unfold Py.len. induction s as [|a s IH]; simpl; [done|].
  destruct (Py.rstrip c s); [case_decide|]; simpl in *; lia.
Qed.

Lemma manipulate_Some (self : InlineLexer.t) (keys : list string)
    (text : string) (m : re.Match) (out : string) :
  InlineLexer.manipulate self keys text = Return (Some (m, out)) ->
  ∃ key rule,
    key ∈ keys ∧ InlineLexer.rules self !! key = Some rule
    ∧ rule text = Some m.
Proof.
  induction keys as [|key keys IH]; simpl; [done|].
  destruct (InlineLexer.rules self !! key) as [rule|] eqn:Hrule; [|done].
  destruct (rule text) as [m'|] eqn:Hm.
  - destruct (InlineLexer.output_ self key m') as [[out'|]|]; simpl; [| |done].
    + intros [= <- <-]. exists key, rule. split_and!; [left|done..].
    + intros (key' & rule' & Hin & ?)%IH. exists key', rule'.
      split; [by right|done].
  - intros (key' & rule' & Hin & ?)%IH. exists key', rule'.
    split; [by right|done].
Qed.

(** The loop ends when no rule matches the empty string at the start of a
    text: a unit of fuel for each character is enough. *)
Lemma inline_output_finishes (self : InlineLexer.t) (keys : list string) :
  (∀ key rule c s m,
     key ∈ keys -> InlineLexer.rules self !! key = Some rule ->
     rule (String c s) = Some m -> re.group0 m ≠ "") ->
  ∀ fuel output text,
    Py.len text <= fuel ->
    InlineLexer.output_from self keys fuel output text ≠ OutOfFuel.
Proof.
  intros Hrules fuel. induction fuel as [|fuel IH]; intros output text Hfuel.
  - destruct text; [done|]. unfold Py.len in Hfuel. simpl in Hfuel. lia.
  - destruct text as [|c s]; [done|]. cbn [InlineLexer.output_from].
    destruct (InlineLexer.manipulate self keys (String c s))
      as [[[m out]|]|] eqn:Hm; [|done..].
    apply manipulate_Some in Hm as (key & rule & Hin & Hrule & Hmatch).
    apply IH. pose proof (Hrules _ _ _ _ _ Hin Hrule Hmatch) as Hne.
    rewrite len_drop. destruct (re.group0 m); [done|].
    unfold Py.len in *. simpl in *. lia.
Qed.







End InlineLoop.

(** ** The sample of mistune *)




(** No rule of the sample matches the empty string at the start of a
    text. *)
Lemma sample_matches_nonempty (renderer : RstRenderer.t) (key : string)
    (rule : string -> option re.Match) (c : ascii) (s : string)
    (m : re.Match) :
  key ∈ ["math"; "escape"; "text"] ->
  InlineLexer.rules (@InlineLexer.__init__ Sample.mistune renderer) !! key
    = Some rule ->
  rule (String c s) = Some m ->
  re.group0 m ≠ "".
Proof.
  cbn [InlineLexer.rules InlineLexer.__init__ InlineLexer.enable_math
       InlineGrammar Sample.mistune].
  rewrite !elem_of_cons, elem_of_nil. intros [->|[->|[->|[]]]].
  - rewrite lookup_insert_eq. intros [= <-].
    destruct (decide (c = "$"%char)) as [->|Hc].
    + change (String "$" s) with ("$" +:+ s). rewrite math_match.
      destruct (Spec.closing_dollar s) as [i|]; [|done].
      intros [= <-]. cbn [re.group0].
      by replace (i + 2) with (S (S i)) by lia.
    + rewrite math_match_other; [done|].
      simpl. by rewrite decide_False by congruence.
  - rewrite lookup_insert_ne, lookup_insert_ne, lookup_insert_eq by done.
    intros [= <-]. unfold re.match_, Sample.escape. cbn [re.run].
    rewrite decide_True by done. simpl.
    case_decide; [|done]. destruct s as [|a s]; [done|].
    destruct (Sample.escapable a); [|done].
    intros [= <-]. cbn [re.group0].
    unfold Py.len. simpl String.length.
    by replace (S (S (String.length s)) - String.length s)
      with (S (S 0)) by lia.
  - rewrite lookup_insert_ne, lookup_insert_eq by done. intros [= <-].
    destruct (text_match c s) as (j & _ & ->). by intros [= <-].
Qed.

(** The inline lexer of the sample, with a unit of fuel for each
    character of the text, finishes on every text. *)
Lemma sample_inline_finishes (renderer : RstRenderer.t) (in_footnote : bool)
    (text : string) :
  @InlineLexer.output Sample.mistune
    (@InlineLexer.__init__ Sample.mistune renderer)
    in_footnote (Py.len text) text
  ≠ OutOfFuel.
Proof.
  apply (@inline_output_finishes Sample.mistune).
  - intros key rule c s m Hin. apply sample_matches_nonempty.
    by destruct in_footnote.
  - apply len_rstrip.
Qed.

(** * Dollar signs that are not closed *)




(** * Tables and footnotes through the driver *)

(** C2, as the code has it.  No token stream that holds a table or the
    start of a footnote is rendered, whatever comes before or after the
    token and however deep it lies in quotes and lists: the conversion
    returns no output, and once the inline lexer finishes on every text,
    two units of fuel for each token are enough for it to end with an
    exception.  When the loop of the driver comes to a table, it raises
    [NotImplementedError], without arguments, and what was rendered before
    is lost: the exception comes from [table_cell] on the first cell of the
    header, once the inline lexer has returned on it, and from [table_row]
    when the header has no cell.  The start of a footnote whose body is
    rendered records the footnote and renders nothing, and when the loop
    ends with a footnote recorded, the conversion raises
    [NotImplementedError] from [footnote_item] or [footnotes].  Each of
    the six methods for tables and footnotes raises it whatever it is
    given.  If the driver that [md2rst] calls returns only what this one
    returns on the tokens [lex content] of the content, [md2rst] raises on
    every content whose tokens hold a table or the start of a footnote. *)
Theorem unsupported_constructs_raise `{Dedent} `{Fill}
    (renderer : RstRenderer.t)
    (inline inline_html : bool -> string -> outcome string)
    (keys : gmap string Z) :
  (∀ fuel tokens e output,
     e ∈ tokens -> Driver.unsupported e = true ->
     Driver.parse renderer inline inline_html fuel keys tokens
     ≠ Finished (Return output))
  ∧ (∀ fuel tokens e,
       e ∈ tokens -> Driver.unsupported e = true ->
       (∀ in_footnote text, inline in_footnote text ≠ OutOfFuel) ->
       (∀ in_footnote text, inline_html in_footnote text ≠ OutOfFuel) ->
       2 * length tokens < fuel ->
       ∃ exn,
         Driver.parse renderer inline inline_html fuel keys tokens
         = Finished (Raise exn))
  ∧ (∀ fuel output st header align cells rest,
       Driver.tokens st = Driver.Table header align cells :: rest ->
       match header with
       | [] => True
       | value :: _ =>
           ∃ text,
             inline (Driver.in_footnote st) value = Finished (Return text)
       end ->
       Driver.output_from renderer inline inline_html (S (S fuel)) output st
       = Finished (Raise (NotImplementedError [])))
  ∧ (∀ fuel key st body st',
       Driver.until renderer inline inline_html fuel false "footnote_end"
         RstRenderer.placeholder
         {| Driver.tokens := Driver.tokens st;
            Driver.footnotes := Driver.footnotes st;
            Driver.in_footnote := true |}
       = Finished (Return (body, st')) ->
       Driver.tok renderer inline inline_html (S fuel)
         (Driver.FootnoteStart key) st
       = Finished (Return
           (RstRenderer.placeholder,
            {| Driver.tokens := Driver.tokens st';
               Driver.footnotes := Driver.footnotes st' ++ [(key, body)];
               Driver.in_footnote := false |})))
  ∧ (∀ fuel tokens output st,
       Driver.output_from renderer inline inline_html fuel
         RstRenderer.placeholder
         {| Driver.tokens := tokens;
            Driver.footnotes := [];
            Driver.in_footnote := false |}
       = Finished (Return (output, st)) ->
       Driver.footnotes st ≠ [] ->
       Driver.parse renderer inline inline_html fuel keys tokens
       = Finished (Raise (NotImplementedError [])))
  ∧ ((∀ header body,
        RstRenderer.table header body = Raise (NotImplementedError []))
     ∧ (∀ content,
          RstRenderer.table_row content = Raise (NotImplementedError []))
     ∧ (∀ content flags,
          RstRenderer.table_cell content flags
          = Raise (NotImplementedError []))
     ∧ (∀ key index,
          RstRenderer.footnote_ref key index = Raise (NotImplementedError []))
     ∧ (∀ key text,
          RstRenderer.footnote_item key text = Raise (NotImplementedError []))
     ∧ (∀ text, RstRenderer.footnotes text = Raise (NotImplementedError [])))
  ∧ (∀ (M : Mistune) (D : MistuneDriver) (lex : string -> list Driver.entry)
       (keys_of : string -> gmap string Z),
       (∀ content output,
          md2rst content = Return output ->
          ∃ fuel,
            Driver.parse (RstRenderer.__init__ ∅) inline inline_html fuel
              (keys_of content) (lex content)
            = Finished (Return output)) ->
       ∀ content e,
         e ∈ lex content -> Driver.unsupported e = true ->
         ∃ exn, md2rst content = Raise exn).
Proof.
  split_and!; try done.
  - intros fuel tokens e output. apply parse_unsupported.
  - intros fuel tokens e Hin Hun Hinline Hhtml Hfuel.
    pose proof (parse_unsupported renderer inline inline_html fuel keys
                  tokens e) as Hno.
    pose proof (parse_finishes renderer inline inline_html Hinline Hhtml
                  fuel keys tokens Hfuel) as Hend.
    destruct (Driver.parse renderer inline inline_html fuel keys tokens)
      as [[out|exn]|];
      [by destruct (Hno out)|by exists exn|done].
  - intros fuel output st header align cells rest Htokens Hheader.
    cbn [Driver.output_from]. rewrite Htokens. simpl.
    unfold Driver.output_table. destruct header as [|value header]; [done|].
    destruct Hheader as [text Htext]. simpl. by rewrite Htext.
  - intros fuel key st body st' Huntil. simpl. by rewrite Huntil.
  - intros fuel tokens output st Hout Hnotes. unfold Driver.parse.
    rewrite Hout. simpl.
    destruct (Driver.footnotes st) as [|note notes]; [done|].
    match goal with
    | |- context [Driver.footnote_items _ ?l] => generalize l
    end.
    by intros [|n l].
  - intros M D lex keys_of Hmodel content e Hin Hun.
    destruct (md2rst content) as [output|exn] eqn:Hrun; [|by exists exn].
    destruct (Hmodel _ _ Hrun) as [fuel Hparse].
    by destruct (parse_unsupported (RstRenderer.__init__ ∅) inline
                   inline_html fuel (keys_of content) (lex content) e
                   output).
Qed.

Lemma unsupported_constructs_raise_witness :
  let renderer := RstRenderer.__init__ ∅ in
  let inline_of lexer (in_footnote : bool) s :=
    @InlineLexer.output Sample.mistune lexer in_footnote (Py.len s) s in
  let inline := inline_of (@InlineLexer.__init__ Sample.mistune renderer) in
  let html_of lexer (in_footnote : bool) s :=
    @InlineLexer.output_from Sample.mistune lexer ["escape"; "text"]
      (Py.len s) RstRenderer.placeholder (Py.rstrip LF s) in
  let inline_html :=
    html_of (@InlineLexer.__init__ Sample.mistune renderer) in
  let fill (initial subsequent s : string) := initial +:+ s in
  let parse :=
    @Driver.parse cpython_dedent fill renderer inline inline_html in
  let table := Driver.Table ["a"; "b"] [VNone; VNone] [["1"; "2"]] in
  let document :=
    [Driver.Paragraph "See the table."; table; Driver.Paragraph "The end."] in
  let note :=
    [Driver.FootnoteStart "1"; Driver.Paragraph "A note.";
     Driver.FootnoteEnd "1"] in
  let driver : MistuneDriver := fun _ lexer renderer content =>
    match @Driver.parse cpython_dedent fill renderer (inline_of lexer)
            (html_of lexer) 5 ∅ [Driver.Paragraph content; table] with
    | Finished r => r
    | OutOfFuel => Raise (RuntimeError [])
    end in
  parse 7 ∅ document
  ≠ Finished (Return ("See the table." +:+ nl +:+ nl
                      +:+ "The end." +:+ nl +:+ nl))
  ∧ (∃ exn, parse 7 ∅ document = Finished (Raise exn))
  ∧ @Driver.output_from cpython_dedent fill renderer inline inline_html 2
      ("See the table." +:+ nl +:+ nl)
      {| Driver.tokens := [table; Driver.Paragraph "The end."];
         Driver.footnotes := [];
         Driver.in_footnote := false |}
    = Finished (Raise (NotImplementedError []))
  ∧ @Driver.tok cpython_dedent fill renderer inline inline_html 3
      (Driver.FootnoteStart "1")
      {| Driver.tokens := [Driver.Paragraph "A note."; Driver.FootnoteEnd "1"];
         Driver.footnotes := [];
         Driver.in_footnote := false |}
    = Finished (Return
        ("", {| Driver.tokens := [];
                Driver.footnotes := [("1", "A note." +:+ nl +:+ nl)];
                Driver.in_footnote := false |}))
  ∧ parse 7 ∅ note = Finished (Raise (NotImplementedError []))
  ∧ ∃ exn, @md2rst Sample.mistune driver "Text." = Raise exn.
Proof.
  intros renderer inline_of inline html_of inline_html fill parse table
    document note driver.
  destruct (@unsupported_constructs_raise cpython_dedent fill renderer inline
              inline_html ∅)
    as (Hno & Hraise & Htable & Hstart & Hnotes & _ & Hmd2rst).
  split_and!.
  - apply (Hno 7 document table); [|done]. right. by left.
  - apply (Hraise 7 document table); [|done| | |simpl; lia].
    + right. by left.
    + intros in_footnote text. apply sample_inline_finishes.
    + intros in_footnote text.
      apply (@inline_output_finishes Sample.mistune); [|apply len_rstrip].
      intros key rule c s m Hkey. apply sample_matches_nonempty.
      by right.
  - apply (Htable 0 _ _ ["a"; "b"] [VNone; VNone] [["1"; "2"]]
             [Driver.Paragraph "The end."]); [done|].
    by exists "a".
  - exact (Hstart 2 "1"
             {| Driver.tokens :=
                  [Driver.Paragraph "A note."; Driver.FootnoteEnd "1"];
                Driver.footnotes := [];
                Driver.in_footnote := false |}
             ("A note." +:+ nl +:+ nl)
             {| Driver.tokens := [];
                Driver.footnotes := [];
                Driver.in_footnote := true |}
             eq_refl).
  - apply (Hnotes 7 note ""
             {| Driver.tokens := [];
                Driver.footnotes := [("1", "A note." +:+ nl +:+ nl)];
                Driver.in_footnote := false |}); [|done].
    by vm_compute.
  - apply (Hmd2rst Sample.mistune driver
             (fun content => [Driver.Paragraph content; table])
             (fun _ => ∅)) with (e := table); [|by right; left|done].
    intros content output Hrun. exists 5.
    unfold md2rst, Markdown_render, driver in Hrun.
    match type of Hrun with
    | match ?p with _ => _ end = _ =>
        transitivity p; [reflexivity|];
        by destruct p as [[out|exn]|]; simplify_eq
    end.
Defined.
